(** * Sakila migration (migration.js): a shallow embedding and its properties

    The program reads six entity sets from a relational store and writes them
    to a key-value store and a document store.  The three drivers are external
    systems: every driver call is an event whose failure is decided by the
    environment, and the two target stores are explicit components of the
    machine state.

    JavaScript strings are sequences of code units below 256.  A Number is
    an IEEE 754 binary64 value.  One that is integral (a row identifier, a
    [parseInt] result) is carried as the integer it stands for, the sign of
    a zero not being kept: [parseInt] rounds the integer it reads to the
    nearest binary64 value, so that its results are always representable;
    a Number read by [parseFloat] is carried as a [spec_float] with
    precision 53 and [emax] 1024. *)

From Stdlib Require Import ZArith List String Ascii Bool Lia.
From Stdlib Require Import DecimalString DecimalPos SpecFloat.
From stdpp Require Import gmap strings.
Import ListNotations.

Set Warnings "-register-all".

Local Open Scope string_scope.
Local Open Scope Z_scope.

(** ** JavaScript strings and numbers *)

Module Js.

(** A Number: an integral value, or a binary64 value (which includes NaN,
    the zeros and the infinities). *)
Inductive number :=
| Integer (z : Z)
| Float (f : spec_float).

Definition NaN : number := Float S754_nan.

(** Values that end up in rows, hashes and documents. *)
Inductive value :=
| Undefined
| Null
| Num (n : number)
| Str (s : string)
| Date (ms : Z)
| Arr (xs : list value)
| Obj (fields : list (string * value)).

(** [o[k]] on an object literal: the first field named [k], else undefined. *)
Fixpoint get_field (k : string) (fields : list (string * value)) : option value :=
  match fields with
  | [] => None
  | (k', v) :: rest => if String.eqb k k' then Some v else get_field k rest
  end.

Definition has_key (k : string) (v : value) : bool :=
  match v with
  | Obj fields => match get_field k fields with Some _ => true | None => false end
  | _ => false
  end.

Definition field (k : string) (v : value) : value :=
  match v with
  | Obj fields => match get_field k fields with Some x => x | None => Undefined end
  | _ => Undefined
  end.

(** Truthiness of the values the program tests. *)
Definition truthy_string (s : option string) : bool :=
  match s with
  | Some (String _ _) => true
  | _ => false
  end.

Definition truthy_int (z : option Z) : bool :=
  match z with
  | Some n => negb (n =? 0)
  | None => false
  end.

(** [x || d] for an environment value: unset and empty both give [d]. *)
Definition or_default (x : option string) (d : string) : string :=
  match x with
  | Some (String c s) => String c s
  | _ => d
  end.

(** The decimal text of an integer.  It is [n.toString()] for an integral
    Number of magnitude below [10^21], where JavaScript changes to exponent
    notation, and [n::text] of the relational store for every integer. *)
Definition int_to_string (z : Z) : string :=
  NilZero.string_of_int (Z.to_int z).

(** [s.split(',')]: the pieces between separators; the empty string gives
    one empty piece. *)
Fixpoint split (sep : ascii) (s : string) : list string :=
  match s with
  | EmptyString => [EmptyString]
  | String c s' =>
      if Ascii.eqb c sep then EmptyString :: split sep s'
      else match split sep s' with
           | [] => [String c EmptyString]
           | p :: ps => String c p :: ps
           end
  end.

Definition comma : ascii := ","%char.

(** White space and line terminators among the code units below 256. *)
Definition is_space (c : ascii) : bool :=
  let n := Z.of_nat (nat_of_ascii c) in
  (n =? 9) || (n =? 10) || (n =? 11) || (n =? 12) || (n =? 13) || (n =? 32) || (n =? 160).

Fixpoint trim_start (s : string) : string :=
  match s with
  | String c s' => if is_space c then trim_start s' else s
  | EmptyString => s
  end.

(** Value of a digit in radixes up to 36. *)
Definition digit_value (c : ascii) : option Z :=
  let n := Z.of_nat (nat_of_ascii c) in
  if (48 <=? n) && (n <=? 57) then Some (n - 48)
  else if (97 <=? n) && (n <=? 122) then Some (n - 87)
  else if (65 <=? n) && (n <=? 90) then Some (n - 55)
  else None.

(** The longest prefix of radix-[r] digits: its value and its length, and
    the rest of the string. *)
Fixpoint digits_prefix (r : Z) (s : string) (acc : Z) (len : nat) : Z * nat * string :=
  match s with
  | String c s' =>
      match digit_value c with
      | Some d => if d <? r then digits_prefix r s' (acc * r + d) (S len) else (acc, len, s)
      | None => (acc, len, s)
      end
  | EmptyString => (acc, len, s)
  end.

Definition strip_sign (s : string) : bool * string :=
  match s with
  | String "-" s' => (true, s')
  | String "+" s' => (false, s')
  | _ => (false, s)
  end.

Definition strip_hex_prefix (s : string) : option string :=
  match s with
  | String "0" (String "x" s') => Some s'
  | String "0" (String "X" s') => Some s'
  | _ => None
  end.

(** The integer nearest to [a / b], for [b > 0]; of two that are equally
    near, the even one. *)
Definition round_half_even (a b : Z) : Z :=
  let q := a / b in
  let r := a mod b in
  if 2 * r <? b then q
  else if b <? 2 * r then q + 1
  else if Z.even q then q else q + 1.

(** Binary64 values counted in units of [2^-1074], the least positive one:
    a finite value is [m * 2^E] units with [m < 2^53] and [0 <= E].
    [binade a d] is the exponent [E] of the binade of [a / d] units:
    [2^52 * 2^E <= a / d < 2^53 * 2^E], or [E = 0] below [2^52] units. *)
Definition binade (a d : Z) : Z :=
  let E0 := Z.max (Z.log2 a - Z.log2 d - 53) 0 in
  if 2 ^ 53 * 2 ^ E0 * d <=? a then E0 + 1 else E0.

(** The Number value of the rational [n / d] with the given sign, for
    [0 <= n] and [0 < d]: the binary64 value nearest to it, the one with the
    even significand of two that are equally near, and an infinity when that
    value is beyond the largest finite one. *)
Definition nearest_binary64 (neg : bool) (n d : Z) : spec_float :=
  let a := n * 2 ^ 1074 in
  let E := binade a d in
  let M := round_half_even a (d * 2 ^ E) in
  let '(m, E) := if M =? 2 ^ 53 then (2 ^ 52, E + 1) else (M, E) in
  match m with
  | Zpos p => if E - 1074 <=? 971 then S754_finite neg p (E - 1074) else S754_infinity neg
  | _ => S754_zero neg
  end.

(** The Number value of the integer [v] with the given sign, [0 <= v]: the
    nearest binary64 value, which is again an integer. *)
Definition number_of_integer (neg : bool) (v : Z) : number :=
  match nearest_binary64 neg v 1 with
  | S754_zero _ => Integer 0
  | S754_finite s m e =>
      let magnitude := if 0 <=? e then Zpos m * 2 ^ e else Zpos m / 2 ^ (- e) in
      Integer (if s then - magnitude else magnitude)
  | other => Float other
  end.

(** [parseInt(s, radix)]; radix [0] stands for an omitted radix.  The result
    is NaN when no digit can be read, and otherwise the Number value of the
    integer the digits stand for. *)
Definition parseInt (s : string) (radix : Z) : number :=
  let '(neg, body) := strip_sign (trim_start s) in
  if negb (radix =? 0) && ((radix <? 2) || (36 <? radix)) then NaN
  else
    let r0 := if radix =? 0 then 10 else radix in
    let '(r, body) :=
      if (radix =? 0) || (radix =? 16) then
        match strip_hex_prefix body with
        | Some body' => (16, body')
        | None => (r0, body)
        end
      else (r0, body) in
    let '(v, len, _) := digits_prefix r body 0 0%nat in
    match len with
    | O => NaN
    | S _ => number_of_integer neg v
    end.

(** The Number value of the decimal [m * 10^e], [0 <= m], rounded to
    binary64 by one rounding. *)
Definition number_of_decimal (neg : bool) (m : Z) (e : Z) : spec_float :=
  if 0 <=? e then nearest_binary64 neg (m * 10 ^ e) 1
  else nearest_binary64 neg m (10 ^ (- e)).

Definition starts_with_Infinity (s : string) : bool :=
  String.prefix "Infinity" s.

(** An exponent part [e], [e+] or [e-] followed by at least one digit. *)
Definition exponent_part (s : string) : Z :=
  match s with
  | String c s' =>
      if Ascii.eqb c "e" || Ascii.eqb c "E" then
        let '(neg, ds) := strip_sign s' in
        let '(v, len, _) := digits_prefix 10 ds 0 0%nat in
        match len with
        | O => 0
        | S _ => if neg then - v else v
        end
      else 0
  | EmptyString => 0
  end.

(** The digits after the integer part: an optional point and fraction
    digits.  Gives the digits read as one integer, the number of fraction
    digits and the rest; nothing when there is no digit at all. *)
Definition fraction_part (ip : Z) (ilen : nat) (rest : string) : option (Z * nat * string) :=
  match rest with
  | String "." frac =>
      let '(m, flen, rest') := digits_prefix 10 frac ip 0%nat in
      match ilen, flen with
      | O, O => None
      | _, _ => Some (m, flen, rest')
      end
  | _ =>
      match ilen with
      | O => None
      | S _ => Some (ip, 0%nat, rest)
      end
  end.

(** [parseFloat(s)]: the Number value of the longest prefix that is a
    decimal literal, NaN when there is none. *)
Definition parseFloat (s : string) : number :=
  let '(neg, body) := strip_sign (trim_start s) in
  if starts_with_Infinity body then Float (S754_infinity neg)
  else
    let '(ip, ilen, rest) := digits_prefix 10 body 0 0%nat in
    match fraction_part ip ilen rest with
    | Some (m, flen, rest') =>
        Float (number_of_decimal neg m (exponent_part rest' - Z.of_nat flen))
    | None => NaN
    end.

(** Calendar date of a day number counted from 1970-01-01. *)
Definition civil_from_days (days : Z) : Z * Z * Z :=
  let z := days + 719468 in
  let era := z / 146097 in
  let doe := z - era * 146097 in
  let yoe := (doe - doe / 1460 + doe / 36524 - doe / 146096) / 365 in
  let doy := doe - (365 * yoe + yoe / 4 - yoe / 100) in
  let mp := (5 * doy + 2) / 153 in
  let d := doy - (153 * mp + 2) / 5 + 1 in
  let m := if mp <? 10 then mp + 3 else mp - 9 in
  let y := yoe + era * 400 in
  (if m <=? 2 then y + 1 else y, m, d).

Fixpoint zeros (n : nat) : string :=
  match n with
  | O => ""
  | S n' => String "0" (zeros n')
  end.

(** Decimal digits of a non-negative integer, padded with zeros on the left. *)
Definition pad (width : nat) (z : Z) : string :=
  let ds := int_to_string z in
  zeros (width - String.length ds) +:+ ds.

Definition year_string (y : Z) : string :=
  if (0 <=? y) && (y <=? 9999) then pad 4 y
  else (if y <? 0 then "-" else "+") +:+ pad 6 (Z.abs y).

(** [d.toISOString()] for a valid Date holding [ms] milliseconds since the
    epoch. *)
Definition toISOString (ms : Z) : string :=
  let '(y, m, d) := civil_from_days (ms / 86400000) in
  let t := ms mod 86400000 in
  year_string y +:+ "-" +:+ pad 2 m +:+ "-" +:+ pad 2 d +:+ "T"
    +:+ pad 2 (t / 3600000) +:+ ":" +:+ pad 2 (t / 60000 mod 60) +:+ ":"
    +:+ pad 2 (t / 1000 mod 60) +:+ "." +:+ pad 3 (t mod 1000) +:+ "Z".

(** [Boolean(v)]. *)
Definition truthy (v : value) : bool :=
  match v with
  | Undefined | Null => false
  | Num (Integer z) => negb (z =? 0)
  | Num (Float (S754_zero _)) | Num (Float S754_nan) => false
  | Num (Float _) => true
  | Str s => truthy_string (Some s)
  | Date _ | Arr _ | Obj _ => true
  end.

(** [m[n]] on an object whose own keys are the decimal forms of integers:
    a Number that is not integral (NaN here) names no such key. *)
Definition lookup_key (m : gmap Z value) (n : number) : value :=
  match n with
  | Integer z => default Undefined (m !! z)
  | Float _ => Undefined
  end.

End Js.


(** ** Source rows, as the relational driver yields them *)

Module Country.
Record row := { country_id : Z; country : string; last_update : Z }.
End Country.

Module City.
Record row := { city_id : Z; city : string; country_id : Z; last_update : Z }.
End City.

Module Language.
Record row := { language_id : Z; name : string; last_update : Z }.
End Language.

Module Category.
Record row := { category_id : Z; name : string; last_update : Z }.
End Category.

Module Actor.
Record row := { actor_id : Z; first_name : string; last_name : string; last_update : Z }.
End Actor.

(** A film row of the aggregate query.  Columns the program only copies are
    kept as the values the driver gave; numeric columns arrive as text, and
    the nullable columns and both aggregates may be absent. *)
Module Film.
Record row := {
  film_id : Z;
  title : Js.value;
  description : Js.value;
  release_year : Js.value;
  rental_duration : Js.value;
  rental_rate : string;
  length : Js.value;
  replacement_cost : string;
  rating : Js.value;
  special_features : option string;
  last_update : Js.value;
  language_id : Z;
  original_language_id : option Z;
  category_ids : option string;
  actor_ids : option string
}.
End Film.

Record database := {
  countries : list Country.row;
  cities : list City.row;
  languages : list Language.row;
  categories : list Category.row;
  actors : list Actor.row;
  films : list Film.row
}.

(** ** Configuration *)

Record pg_config := {
  pg_user : option string;
  pg_host : string;
  pg_database : option string;
  pg_password : option string;
  pg_port : Js.number
}.

Record redis_config := { redis_host : string; redis_port : Js.number }.

Record mongo_config := { uri : string; dbName : string }.

Definition pgConfig (env : gmap string string) : pg_config :=
  {| pg_user := env !! "PG_USER";
     pg_host := Js.or_default (env !! "PG_HOST") "localhost";
     pg_database := env !! "PG_DATABASE";
     pg_password := env !! "PG_PASSWORD";
     pg_port := Js.parseInt (Js.or_default (env !! "PG_PORT") "5432") 10 |}.

Definition redisConfig (env : gmap string string) : redis_config :=
  {| redis_host := Js.or_default (env !! "REDIS_HOST") "localhost";
     redis_port := Js.parseInt (Js.or_default (env !! "REDIS_PORT") "6379") 10 |}.

Definition mongoConfig (env : gmap string string) : mongo_config :=
  {| uri := Js.or_default (env !! "MONGO_URI") "mongodb://localhost:27017";
     dbName := Js.or_default (env !! "MONGO_DB_NAME") "sakila_nosql" |}.

(** ** Driver calls, machine state and the execution monad *)

Inductive statement :=
| SelectCountry | SelectCity | SelectLanguage | SelectCategory | SelectActor | SelectFilm.

Inductive event :=
| PgNew (cfg : pg_config)
| PgConnect
| PgQuery (q : statement)
| PgEnd
| RedisCreate (cfg : redis_config)
| RedisConnect
| RedisFlushDb
| RedisHSet (key : string) (fields : list (string * string))
| RedisQuit
| MongoNew (uri : string)
| MongoConnect
| MongoDeleteMany (coll : string)
| MongoInsertMany (coll : string) (docs : list Js.value)
| MongoClose
| ConsoleLog (msg : string)
| ConsoleError (msg : string) (failed : event).

Inductive error := DriverError (call : event).

(** The contents of the two target stores: the hashes of the key-value
    store by key, and the documents of the document store by collection. *)
Abbreviation stores :=
  (gmap string (gmap string string) * gmap string (list Js.value))%type.

(** The state of a run.  [env], [source] and [fails] are never written:
    [fails history call] tells whether the driver call raises, given the
    events so far.  [trace] lists the events of the run, and [journal] lists
    them with, beside each, the contents of the target stores at the time it
    was recorded; no statement of the program reads either.  The four
    handles are the local variables of [runMigration]. *)
Record state := {
  env : gmap string string;
  source : database;
  fails : list event -> event -> bool;
  redis : gmap string (gmap string string);
  mongo : gmap string (list Js.value);
  trace : list event;
  journal : list (event * stores);
  pgClient : option pg_config;
  redisClient : option redis_config;
  mongoClient : option string;
  mongoDb : option string
}.

Definition set_redis (f : gmap string (gmap string string) -> gmap string (gmap string string))
  (st : state) : state :=
  {| env := env st; source := source st; fails := fails st; redis := f (redis st);
     mongo := mongo st; trace := trace st; journal := journal st; pgClient := pgClient st;
     redisClient := redisClient st; mongoClient := mongoClient st; mongoDb := mongoDb st |}.

Definition set_mongo (f : gmap string (list Js.value) -> gmap string (list Js.value))
  (st : state) : state :=
  {| env := env st; source := source st; fails := fails st; redis := redis st;
     mongo := f (mongo st); trace := trace st; journal := journal st;
     pgClient := pgClient st; redisClient := redisClient st; mongoClient := mongoClient st;
     mongoDb := mongoDb st |}.

Definition record_event (e : event) (st : state) : state :=
  {| env := env st; source := source st; fails := fails st; redis := redis st;
     mongo := mongo st; trace := trace st ++ [e];
     journal := journal st ++ [(e, (redis st, mongo st))];
     pgClient := pgClient st; redisClient := redisClient st; mongoClient := mongoClient st;
     mongoDb := mongoDb st |}.

Definition assign_pgClient (c : pg_config) (st : state) : state :=
  {| env := env st; source := source st; fails := fails st; redis := redis st;
     mongo := mongo st; trace := trace st; journal := journal st; pgClient := Some c;
     redisClient := redisClient st; mongoClient := mongoClient st; mongoDb := mongoDb st |}.

Definition assign_redisClient (c : redis_config) (st : state) : state :=
  {| env := env st; source := source st; fails := fails st; redis := redis st;
     mongo := mongo st; trace := trace st; journal := journal st; pgClient := pgClient st;
     redisClient := Some c; mongoClient := mongoClient st; mongoDb := mongoDb st |}.

Definition assign_mongoClient (c : string) (st : state) : state :=
  {| env := env st; source := source st; fails := fails st; redis := redis st;
     mongo := mongo st; trace := trace st; journal := journal st; pgClient := pgClient st;
     redisClient := redisClient st; mongoClient := Some c; mongoDb := mongoDb st |}.

Definition assign_mongoDb (c : string) (st : state) : state :=
  {| env := env st; source := source st; fails := fails st; redis := redis st;
     mongo := mongo st; trace := trace st; journal := journal st; pgClient := pgClient st;
     redisClient := redisClient st; mongoClient := mongoClient st; mongoDb := Some c |}.

(** How a block of statements completes: normally, by a thrown error, or by
    the process having exited. *)
Inductive outcome (A : Type) :=
| Normal (a : A)
| Thrown (e : error)
| Exited (code : Z).

Arguments Normal {A} a.
Arguments Thrown {A} e.
Arguments Exited {A} code.

Definition M (A : Type) : Type := state -> outcome A * state.

#[export] Instance M_ret : MRet M := fun A a st => (Normal a, st).

#[export] Instance M_bind : MBind M := fun A B k m st =>
  match m st with
  | (Normal a, st') => k a st'
  | (Thrown e, st') => (Thrown e, st')
  | (Exited c, st') => (Exited c, st')
  end.

Definition gets {A} (f : state -> A) : M A := fun st => (Normal (f st), st).

Definition modify (f : state -> state) : M unit := fun st => (Normal tt, f st).

(** An awaited driver call: recorded, then either it raises or its effect
    on the stores takes place. *)
Definition call (e : event) (effect : state -> state) : M unit := fun st =>
  if fails st (trace st) e then (Thrown (DriverError e), record_event e st)
  else (Normal tt, effect (record_event e st)).

Definition console_log (msg : string) : M unit := modify (record_event (ConsoleLog msg)).

Definition console_error (msg : string) (e : error) : M unit :=
  match e with
  | DriverError c => modify (record_event (ConsoleError msg c))
  end.

(** [process.exit(code)] ends the process at once: nothing after it runs,
    pending [finally] blocks included. *)
Definition process_exit {A} (code : Z) : M A := fun st => (Exited code, st).

(** [try { body } catch (error) { handler error } finally { cleanup }] *)
Definition try_catch_finally {A} (body : M A) (handler : error -> M A) (cleanup : M unit) : M A :=
  fun st =>
    let completion :=
      match body st with
      | (Thrown e, st') => handler e st'
      | other => other
      end in
    match completion with
    | (Exited c, st') => (Exited c, st')
    | (result, st') =>
        match cleanup st' with
        | (Normal _, st'') => (result, st'')
        | (Thrown e, st'') => (Thrown e, st'')
        | (Exited c, st'') => (Exited c, st'')
        end
    end.

(** [for (const x of xs) { await body x }] *)
Fixpoint for_each {A} (xs : list A) (body : A -> M unit) : M unit :=
  match xs with
  | [] => mret tt
  | x :: rest => body x ;; for_each rest body
  end.

Definition collection (st : state) (coll : string) : list Js.value :=
  default [] (mongo st !! coll).

(** ** Driver operations *)

Definition pg_query {A} (q : statement) (rows : database -> list A) : M (list A) :=
  call (PgQuery q) id ;; gets (fun st => rows (source st)).

(** [hSet key fields] sets the given fields of the hash at [key] and keeps
    its other fields. *)
Definition redis_hSet (key : string) (fields : list (string * string)) : M unit :=
  call (RedisHSet key fields)
       (set_redis (fun r => <[key := list_to_map fields ∪ default ∅ (r !! key)]> r)).

Definition redis_flushDb : M unit :=
  call RedisFlushDb (set_redis (fun _ => ∅)).

Definition mongo_deleteMany (coll : string) : M unit :=
  call (MongoDeleteMany coll) (set_mongo (fun m => <[coll := []]> m)).

Definition mongo_insertMany (coll : string) (docs : list Js.value) : M unit :=
  call (MongoInsertMany coll docs)
       (set_mongo (fun m => <[coll := (default [] (m !! coll) ++ docs)%list]> m)).

(** ** PostgreSQL data fetching functions *)

Definition fetchCountries : M (list Country.row) :=
  console_log "Fetching countries from PostgreSQL..." ;;
  pg_query SelectCountry countries.

Definition fetchCities : M (list City.row) :=
  console_log "Fetching cities from PostgreSQL..." ;;
  pg_query SelectCity cities.

(** The reduced form [{id, name}] embedded in film documents. *)
Definition reduced (id : Z) (name : string) : Js.value :=
  Js.Obj [("id", Js.Num (Js.Integer id)); ("name", Js.Str name)].

(** [rows.forEach(lang => { languagesMap[lang.language_id] = {...} })] *)
Definition languagesMapOf (rows : list Language.row) : gmap Z Js.value :=
  fold_left (fun m lang => <[Language.language_id lang :=
                               reduced (Language.language_id lang) (Language.name lang)]> m)
            rows ∅.

Definition categoriesMapOf (rows : list Category.row) : gmap Z Js.value :=
  fold_left (fun m cat => <[Category.category_id cat :=
                              reduced (Category.category_id cat) (Category.name cat)]> m)
            rows ∅.

Definition fetchLanguages : M (gmap Z Js.value) :=
  console_log "Fetching languages from PostgreSQL..." ;;
  rows ← pg_query SelectLanguage languages;
  mret (languagesMapOf rows).

Definition fetchCategories : M (gmap Z Js.value) :=
  console_log "Fetching categories from PostgreSQL..." ;;
  rows ← pg_query SelectCategory categories;
  mret (categoriesMapOf rows).

Definition fetchActors : M (list Actor.row) :=
  console_log "Fetching actors from PostgreSQL..." ;;
  pg_query SelectActor actors.

Definition fetchFilms : M (list Film.row) :=
  console_log "Fetching films from PostgreSQL..." ;;
  pg_query SelectFilm films.

(** ** Redis migration functions *)

Definition count_message {A} (xs : list A) (what : string) : string :=
  "Migrated " +:+ Js.int_to_string (Z.of_nat (List.length xs)) +:+ what.

Definition countryHash (country : Country.row) : list (string * string) :=
  [("country_id", Js.int_to_string (Country.country_id country));
   ("country_name", Country.country country);
   ("last_update", Js.toISOString (Country.last_update country))].

Definition migrateCountriesToRedis : M unit :=
  console_log "Migrating Countries to Redis..." ;;
  countries ← fetchCountries;
  for_each countries (fun country =>
    redis_hSet ("country:" +:+ Js.int_to_string (Country.country_id country))
               (countryHash country)) ;;
  console_log (count_message countries " countries to Redis.").

Definition cityHash (city : City.row) : list (string * string) :=
  [("city_id", Js.int_to_string (City.city_id city));
   ("city_name", City.city city);
   ("country_id", Js.int_to_string (City.country_id city));
   ("last_update", Js.toISOString (City.last_update city))].

Definition migrateCitiesToRedis : M unit :=
  console_log "Migrating Cities to Redis..." ;;
  cities ← fetchCities;
  for_each cities (fun city =>
    redis_hSet ("city:" +:+ Js.int_to_string (City.city_id city)) (cityHash city)) ;;
  console_log (count_message cities " cities to Redis.").

(** ** MongoDB migration functions *)

Definition actorDoc (actor : Actor.row) : Js.value :=
  Js.Obj [("_id", Js.Num (Js.Integer (Actor.actor_id actor)));
          ("first_name", Js.Str (Actor.first_name actor));
          ("last_name", Js.Str (Actor.last_name actor));
          ("last_update", Js.Date (Actor.last_update actor))].

Definition migrateActorsToMongoDB : M unit :=
  console_log "Migrating Actors to MongoDB..." ;;
  actors ← fetchActors;
  let actorDocs := map actorDoc actors in
  (if 0 <? Z.of_nat (List.length actorDocs)
   then mongo_insertMany "actors" actorDocs
   else mret tt) ;;
  console_log (count_message actors " actors to MongoDB.").

(** [x ? x.split(',') : []] *)
Definition pieces (x : option string) : list string :=
  match x with
  | Some s => if Js.truthy_string (Some s) then Js.split Js.comma s else []
  | None => []
  end.

Definition filmCategories (categoriesMap : gmap Z Js.value) (film : Film.row) : list Js.value :=
  List.filter Js.truthy
    (map (fun id => Js.lookup_key categoriesMap (Js.parseInt id 0))
         (pieces (Film.category_ids film))).

Definition filmActorIds (film : Film.row) : list Js.value :=
  map (fun id => Js.Num (Js.parseInt id 0)) (pieces (Film.actor_ids film)).

Definition filmDoc (languagesMap categoriesMap : gmap Z Js.value) (film : Film.row) : Js.value :=
  let categories := filmCategories categoriesMap film in
  let actorIds := filmActorIds film in
  Js.Obj [("_id", Js.Num (Js.Integer (Film.film_id film)));
          ("title", Film.title film);
          ("description", Film.description film);
          ("release_year", Film.release_year film);
          ("rental_duration", Film.rental_duration film);
          ("rental_rate", Js.Num (Js.parseFloat (Film.rental_rate film)));
          ("length", Film.length film);
          ("replacement_cost", Js.Num (Js.parseFloat (Film.replacement_cost film)));
          ("rating", Film.rating film);
          ("special_features", Js.Arr (map Js.Str (pieces (Film.special_features film))));
          ("last_update", Film.last_update film);
          ("language", Js.lookup_key languagesMap (Js.Integer (Film.language_id film)));
          ("original_language",
             match Film.original_language_id film with
             | Some id => if Js.truthy_int (Some id)
                          then Js.lookup_key languagesMap (Js.Integer id)
                          else Js.Null
             | None => Js.Null
             end);
          ("categories", Js.Arr categories);
          ("actors", Js.Arr actorIds)].

Definition migrateFilmsToMongoDB (languagesMap categoriesMap : gmap Z Js.value) : M unit :=
  console_log "Migrating Films to MongoDB..." ;;
  films ← fetchFilms;
  let filmDocs := map (filmDoc languagesMap categoriesMap) films in
  (if 0 <? Z.of_nat (List.length filmDocs)
   then mongo_insertMany "films" filmDocs
   else mret tt) ;;
  console_log (count_message filmDocs " films to MongoDB.").

(** ** runMigration *)

(** 1. Connect to databases. *)
Definition connectDatabases : M unit :=
  cfg ← gets (fun st => pgConfig (env st));
  call (PgNew cfg) (assign_pgClient cfg) ;;
  call PgConnect id ;;
  console_log "Connected to PostgreSQL" ;;
  rcfg ← gets (fun st => redisConfig (env st));
  call (RedisCreate rcfg) (assign_redisClient rcfg) ;;
  call RedisConnect id ;;
  console_log "Connected to Redis" ;;
  mcfg ← gets (fun st => mongoConfig (env st));
  call (MongoNew (uri mcfg)) (assign_mongoClient (uri mcfg)) ;;
  call MongoConnect id ;;
  modify (assign_mongoDb (dbName mcfg)) ;;
  console_log "Connected to MongoDB".

(** Clear existing data in the NoSQL databases, on
    [process.env.CLEAR_NOSQL_DATA === 'true']. *)
Definition clearNoSqlData : M unit :=
  flag ← gets (fun st => env st !! "CLEAR_NOSQL_DATA");
  if decide (flag = Some "true") then
    redis_flushDb ;;
    console_log "Redis flushed." ;;
    mongo_deleteMany "films" ;;
    mongo_deleteMany "actors" ;;
    console_log "MongoDB collections cleared."
  else mret tt.

(** 2. and 3. Migrate country and city to Redis, then language, category,
    actor and film to MongoDB. *)
Definition migrateAll : M unit :=
  migrateCountriesToRedis ;;
  migrateCitiesToRedis ;;
  languagesMap ← fetchLanguages;
  categoriesMap ← fetchCategories;
  migrateActorsToMongoDB ;;
  migrateFilmsToMongoDB languagesMap categoriesMap ;;
  console_log "
Migration complete!".

(** [if (handle) { body }] *)
Definition when_assigned {A} (handle : option A) (body : M unit) : M unit :=
  match handle with
  | Some _ => body
  | None => mret tt
  end.

(** The [finally] block: close connections. *)
Definition closeConnections : M unit :=
  pg ← gets pgClient;
  when_assigned pg (call PgEnd id ;; console_log "PostgreSQL connection closed.") ;;
  rd ← gets redisClient;
  when_assigned rd (call RedisQuit id ;; console_log "Redis connection closed.") ;;
  mg ← gets mongoClient;
  when_assigned mg (call MongoClose id ;; console_log "MongoDB connection closed.").

Definition runMigration : M unit :=
  try_catch_finally
    (connectDatabases ;; clearNoSqlData ;; migrateAll)
    (fun error => console_error "Migration failed:" error ;; process_exit 1)
    closeConnections.

(** ** Auxiliary notions for the statements *)

(** The last row of [rows] satisfying [p]: later assignments to the same key
    of a lookup object overwrite earlier ones. *)
Fixpoint last_match {A} (p : A -> bool) (rows : list A) : option A :=
  match rows with
  | [] => None
  | x :: rest =>
      match last_match p rest with
      | Some y => Some y
      | None => if p x then Some x else None
      end
  end.

(** The entry of a lookup object at the key a Number names, and the one
    that an aggregate piece resolves to. *)
Definition entry_at (m : gmap Z Js.value) (n : Js.number) : option Js.value :=
  match n with
  | Js.Integer z => m !! z
  | Js.Float _ => None
  end.

Definition entry (m : gmap Z Js.value) (id : string) : option Js.value :=
  entry_at m (Js.parseInt id 0).

(** [pieces.join(',')] *)
Fixpoint join (ps : list string) : string :=
  match ps with
  | [] => ""
  | [p] => p
  | p :: rest => p +:+ String Js.comma (join rest)
  end.

Fixpoint contains (c : ascii) (s : string) : bool :=
  match s with
  | EmptyString => false
  | String c' s' => Ascii.eqb c c' || contains c s'
  end.

(** [STRING_AGG(DISTINCT id::text, ',')] of the film query, for the
    identifiers associated with a film in the order they are aggregated:
    their decimal texts joined by commas, and NULL when there is none. *)
Definition string_agg (ids : list Z) : option string :=
  match ids with
  | [] => None
  | _ :: _ => Some (join (map Js.int_to_string ids))
  end.

Definition items (v : Js.value) : list Js.value :=
  match v with
  | Js.Arr xs => xs
  | _ => []
  end.

(** *** Binary64 values and decimal numerals *)

(** How far the rational [n / d] is from the binary value [m * 2^e], as
    the integer [d * 2^1074 * |m * 2^e - n / d|], for [-1074 <= e]. *)
Definition distance (n d m e : Z) : Z :=
  Z.abs (m * 2 ^ (e + 1074) * d - n * 2 ^ 1074).

(** The significands and exponents of the binary64 format: a normal value
    has 53 significant bits, a subnormal one the least exponent. *)
Definition format (m e : Z) : Prop :=
  (2 ^ 52 <= m < 2 ^ 53 /\ -1074 <= e <= 971) \/ (0 <= m < 2 ^ 52 /\ e = -1074).

(** [m * 2^e] is nearest to [n / d]: no value [m' * 2^e'] of at most 53
    bits, whatever its exponent, is nearer, and when another one is exactly
    as near, [m] is even. *)
Definition is_nearest (n d m e : Z) : Prop :=
  forall m' e', 0 <= m' < 2 ^ 53 -> -1074 <= e' ->
    distance n d m e <= distance n d m' e'
    /\ (distance n d m' e' = distance n d m e ->
        m' * 2 ^ (e' + 1074) <> m * 2 ^ (e + 1074) -> Z.even m = true).

(** [f] is the binary64 rounding of the rational [n / d] taken with the sign
    [neg]: round to nearest, ties to even, and an infinity from
    [2^1024 - 2^970] on, half a unit in the last place above the largest
    finite value. *)
Definition nearest_to (n d : Z) (neg : bool) (f : spec_float) : Prop :=
  match f with
  | S754_zero s => s = neg /\ is_nearest n d 0 (-1074)
  | S754_finite s m e => s = neg /\ format (Zpos m) e /\ is_nearest n d (Zpos m) e
  | S754_infinity s => s = neg /\ (2 ^ 1024 - 2 ^ 970) * d <= n
  | S754_nan => False
  end.

(** The integer that decimal digits stand for, read after the digits that
    gave [acc]. *)
Fixpoint digits_value (d : Decimal.uint) (acc : Z) : Z :=
  match d with
  | Decimal.Nil => acc
  | Decimal.D0 d' => digits_value d' (10 * acc)
  | Decimal.D1 d' => digits_value d' (10 * acc + 1)
  | Decimal.D2 d' => digits_value d' (10 * acc + 2)
  | Decimal.D3 d' => digits_value d' (10 * acc + 3)
  | Decimal.D4 d' => digits_value d' (10 * acc + 4)
  | Decimal.D5 d' => digits_value d' (10 * acc + 5)
  | Decimal.D6 d' => digits_value d' (10 * acc + 6)
  | Decimal.D7 d' => digits_value d' (10 * acc + 7)
  | Decimal.D8 d' => digits_value d' (10 * acc + 8)
  | Decimal.D9 d' => digits_value d' (10 * acc + 9)
  end.

(** The text of a numeric column: an optional minus sign, the digits of the
    integer part, a point and the digits of the fraction. *)
Definition numeral (neg : bool) (integer fraction : Decimal.uint) : string :=
  (if neg then "-" else "") +:+ NilEmpty.string_of_uint integer
    +:+ "." +:+ NilEmpty.string_of_uint fraction.

(** Its value is [numerator / 10^scale], with the sign. *)
Definition numerator (integer fraction : Decimal.uint) : Z :=
  digits_value fraction (digits_value integer 0).

Definition scale (fraction : Decimal.uint) : Z :=
  Z.of_nat (Decimal.nb_digits fraction).

Definition is_close (e : event) : bool :=
  match e with
  | PgEnd | RedisQuit | MongoClose => true
  | _ => false
  end.

Definition is_cleanup (e : event) : bool :=
  match e with
  | RedisFlushDb | MongoDeleteMany _ => true
  | _ => false
  end.

Definition is_query (e : event) : bool :=
  match e with
  | PgQuery _ => true
  | _ => false
  end.

Definition is_insertMany (e : event) : bool :=
  match e with
  | MongoInsertMany _ _ => true
  | _ => false
  end.

(** The events a block adds to the trace of [st]. *)
Definition added (st st' : state) : list event :=
  drop (List.length (trace st)) (trace st').

(** The closes owed for the handles that are assigned, in the order of the
    [finally] block. *)
Definition owed {A} (handle : option A) (close : event) : list event :=
  match handle with
  | Some _ => [close]
  | None => []
  end.

Definition handles_to_close (st : state) : list event :=
  (owed (pgClient st) PgEnd ++ owed (redisClient st) RedisQuit
     ++ owed (mongoClient st) MongoClose)%list.

(** Sample rows used by the examples below. *)
Definition sample_film : Film.row :=
  {| Film.film_id := 1;
     Film.title := Js.Str "ACADEMY DINOSAUR";
     Film.description := Js.Null;
     Film.release_year := Js.Num (Js.Integer 2006);
     Film.rental_duration := Js.Num (Js.Integer 6);
     Film.rental_rate := "4.99";
     Film.length := Js.Num (Js.Integer 86);
     Film.replacement_cost := "20.99";
     Film.rating := Js.Str "PG";
     Film.special_features := Some "Deleted Scenes,Behind the Scenes";
     Film.last_update := Js.Date 1139996640000;
     Film.language_id := 1;
     Film.original_language_id := None;
     Film.category_ids := Some "1,2,99";
     Film.actor_ids := Some "1,99" |}.

Definition with_original_language (id : option Z) (film : Film.row) : Film.row :=
  {| Film.film_id := Film.film_id film;
     Film.title := Film.title film;
     Film.description := Film.description film;
     Film.release_year := Film.release_year film;
     Film.rental_duration := Film.rental_duration film;
     Film.rental_rate := Film.rental_rate film;
     Film.length := Film.length film;
     Film.replacement_cost := Film.replacement_cost film;
     Film.rating := Film.rating film;
     Film.special_features := Film.special_features film;
     Film.last_update := Film.last_update film;
     Film.language_id := Film.language_id film;
     Film.original_language_id := id;
     Film.category_ids := Film.category_ids film;
     Film.actor_ids := Film.actor_ids film |}.

Definition with_category_ids (ids : option string) (film : Film.row) : Film.row :=
  {| Film.film_id := Film.film_id film;
     Film.title := Film.title film;
     Film.description := Film.description film;
     Film.release_year := Film.release_year film;
     Film.rental_duration := Film.rental_duration film;
     Film.rental_rate := Film.rental_rate film;
     Film.length := Film.length film;
     Film.replacement_cost := Film.replacement_cost film;
     Film.rating := Film.rating film;
     Film.special_features := Film.special_features film;
     Film.last_update := Film.last_update film;
     Film.language_id := Film.language_id film;
     Film.original_language_id := Film.original_language_id film;
     Film.category_ids := ids;
     Film.actor_ids := Film.actor_ids film |}.

Definition sample_categories : list Category.row :=
  [ {| Category.category_id := 1; Category.name := "Action"; Category.last_update := 0 |};
    {| Category.category_id := 2; Category.name := "Animation"; Category.last_update := 0 |} ].

Definition sample_languages : list Language.row :=
  [ {| Language.language_id := 1; Language.name := "English"; Language.last_update := 0 |};
    {| Language.language_id := 7; Language.name := "Klingon"; Language.last_update := 0 |} ].

Definition sample_actors : list Actor.row :=
  [ {| Actor.actor_id := 1; Actor.first_name := "PENELOPE"; Actor.last_name := "GUINESS";
       Actor.last_update := 1139996640000 |} ].

Definition sample_source : database :=
  {| countries := [ {| Country.country_id := 1; Country.country := "Afghanistan";
                       Country.last_update := 1139996640000 |} ];
     cities := [ {| City.city_id := 251; City.city := "Kabul"; City.country_id := 1;
                    City.last_update := 1139996705000 |} ];
     languages := sample_languages;
     categories := sample_categories;
     actors := sample_actors;
     films := [sample_film] |}.

(** A run starts with no handle assigned and an empty trace; here the key-value
    store and the films collection already hold a record. *)
Definition initial_state (environment : gmap string string) (source : database)
    (fails : list event -> event -> bool) : state :=
  {| env := environment; source := source; fails := fails;
     redis := {[ "session:1" := {[ "user" := "alice" ]} ]};
     mongo := {[ "films" := [Js.Obj [("_id", Js.Num (Js.Integer 1000))]] ]};
     trace := []; journal := [];
     pgClient := None; redisClient := None; mongoClient := None; mongoDb := None |}.

Definition never_fails : list event -> event -> bool := fun _ _ => false.

Definition only_fails (bad : event -> bool) : list event -> event -> bool :=
  fun _ e => bad e.

Definition is_films_insert (e : event) : bool :=
  match e with
  | MongoInsertMany coll _ => String.eqb coll "films"
  | _ => false
  end.

Definition is_pg_end (e : event) : bool :=
  match e with
  | PgEnd => true
  | _ => false
  end.

(** Runs used as examples: one where every call succeeds, with and without
    the cleanup flag, one where the bulk insert of the films raises, and one
    where closing the relational connection raises. *)
Definition plain_run : state := initial_state ∅ sample_source never_fails.

Definition cleared_run : state :=
  initial_state {[ "CLEAR_NOSQL_DATA" := "true" ]} sample_source never_fails.

Definition kept_run : state :=
  initial_state {[ "CLEAR_NOSQL_DATA" := "false" ]} sample_source never_fails.

Definition films_insert_fails : state :=
  initial_state {[ "CLEAR_NOSQL_DATA" := "true" ]} sample_source (only_fails is_films_insert).

Definition pg_end_fails : state :=
  initial_state ∅ sample_source (only_fails is_pg_end).

Definition language_zero : list Language.row :=
  [ {| Language.language_id := 0; Language.name := "Esperanto"; Language.last_update := 0 |} ].

Definition film_with_language_zero : Film.row :=
  with_original_language (Some 0) sample_film.



(** A block respects a relation between the states before and after it. *)
Definition respects (R : state -> state -> Prop) {A} (m : M A) : Prop :=
  forall st, R st (snd (m st)).

(** [only P]: the environment is untouched and every event added
    satisfies [P]. *)
Definition only (P : event -> bool) (st st' : state) : Prop :=
  env st' = env st /\ exists evs, trace st' = (trace st ++ evs)%list /\ forallb P evs = true.

(** [same_stores]: neither target store changes. *)
Definition same_stores (st st' : state) : Prop :=
  redis st' = redis st /\ mongo st' = mongo st /\ env st' = env st.

Definition not_query (e : event) : bool := negb (is_query e).
Definition not_cleanup (e : event) : bool := negb (is_cleanup e).
Definition connection_event (e : event) : bool :=
  match e with
  | PgNew _ | PgConnect | RedisCreate _ | RedisConnect | MongoNew _ | MongoConnect
  | ConsoleLog _ => true
  | _ => false
  end.

Definition not_close (e : event) : bool := negb (is_close e).

(** Unless the flag is set, no cleanup call is issued. *)
Definition unless_cleared (st st' : state) : Prop :=
  env st !! "CLEAR_NOSQL_DATA" <> Some "true" -> only not_cleanup st st'.

(** The journal entries a block adds. *)
Definition journaled (st st' : state) : list (event * stores) :=
  drop (List.length (journal st)) (journal st').

(** [tracked]: the journal grows by entries whose events are those the
    trace grows by. *)
Definition tracked (st st' : state) : Prop :=
  exists entries, journal st' = (journal st ++ entries)%list
                  /\ trace st' = (trace st ++ map fst entries)%list.

(** A block that begins by recording the given journal entries. *)
Definition starts_with (entries : list (event * stores)) {A} (m : M A) (st : state) : Prop :=
  exists rest, journal (snd (m st)) = (journal st ++ entries ++ rest)%list.

(** [kept]: what the target stores held is still there.  The hash at a key
    is as it was unless a hash write to that key is among the events added,
    and every collection holds the documents it held, new ones coming after
    them. *)
Definition kept (st st' : state) : Prop :=
  env st' = env st
  /\ exists evs, trace st' = (trace st ++ evs)%list
       /\ (forall k, (forall fields, ~ In (RedisHSet k fields) evs) ->
                     redis st' !! k = redis st !! k)
       /\ (forall coll, exists new,
              collection st' coll = (collection st coll ++ new)%list).

Definition kept_unless_cleared (st st' : state) : Prop :=
  env st !! "CLEAR_NOSQL_DATA" <> Some "true" -> kept st st'.

(** * Properties *)

(** ** Strings *)

Lemma split_nonempty sep s : Js.split sep s <> [].
Proof.
  destruct s as [|c s]; simpl; [discriminate|].
  destruct (Ascii.eqb c sep); [discriminate|].
  destruct (Js.split sep s); discriminate.
Qed.

Lemma join_cons p ps : ps <> [] -> join (p :: ps) = p +:+ String Js.comma (join ps).
Proof. destruct ps; [congruence|reflexivity]. Qed.

(** Joining the pieces with commas gives the text back. *)
Lemma join_split s : join (Js.split Js.comma s) = s.
Proof.
  induction s as [|c s IH]; simpl; [reflexivity|].
  pose proof (split_nonempty Js.comma s) as Hne.
  destruct (Ascii.eqb_spec c Js.comma) as [->|Hc].
  - rewrite join_cons by assumption. rewrite IH. reflexivity.
  - destruct (Js.split Js.comma s) as [|p ps] eqn:E; [congruence|].
    destruct ps as [|q qs].
    + simpl in *. congruence.
    + rewrite join_cons in * by discriminate. rewrite <- IH. reflexivity.
Qed.

Lemma contains_other c c' s : c <> c' -> contains c (String c' s) = contains c s.
Proof.
  intros H. change (contains c (String c' s)) with (Ascii.eqb c c' || contains c s).
  apply Ascii.eqb_neq in H. rewrite H. reflexivity.
Qed.

(** No piece contains a comma. *)
Lemma split_no_comma s : Forall (fun p => contains Js.comma p = false) (Js.split Js.comma s).
Proof.
  induction s as [|c s IH]; simpl.
  - constructor; [reflexivity|constructor].
  - destruct (Ascii.eqb_spec c Js.comma) as [->|Hc].
    + constructor; [reflexivity|exact IH].
    + destruct (Js.split Js.comma s) as [|p ps].
      * constructor; [|constructor]. rewrite contains_other by congruence. reflexivity.
      * inversion IH; subst. constructor; [|assumption].
        rewrite contains_other by congruence. assumption.
Qed.

(** *** Rounding to binary64 *)

Lemma round_half_even_spec (a b : Z) :
  0 < b ->
  2 * Z.abs (a - b * Js.round_half_even a b) <= b
  /\ (2 * Z.abs (a - b * Js.round_half_even a b) = b ->
      Z.even (Js.round_half_even a b) = true).
Proof.
  intros Hb. unfold Js.round_half_even.
  pose proof (Z.div_mod a b ltac:(lia)) as Hdm.
  pose proof (Z.mod_pos_bound a b Hb) as Hr.
  set (q := a / b) in *. set (r := a mod b) in *.
  destruct (Z.ltb_spec (2 * r) b) as [H1|H1]; [split; lia|].
  destruct (Z.ltb_spec b (2 * r)) as [H2|H2]; [split; lia|].
  destruct (Z.even q) eqn:Ev.
  - split; [lia|auto].
  - split; [lia|]. intros _. rewrite Z.even_add, Ev. reflexivity.
Qed.

(** An integer within half of [b] of [a] is the nearest multiple of [b];
    another one is as near only at exactly half. *)
Lemma nearest_integer (a b m k : Z) :
  0 < b -> 2 * Z.abs (a - b * m) <= b ->
  Z.abs (a - b * m) <= Z.abs (a - b * k)
  /\ (Z.abs (a - b * k) = Z.abs (a - b * m) -> k <> m -> 2 * Z.abs (a - b * m) = b).
Proof.
  intros Hb H.
  destruct (Z.eq_dec k m) as [->|Hne]; [split; [lia|congruence]|].
  assert (Hk : b * k >= b * m + b \/ b * k <= b * m - b).
  { destruct (Z.lt_ge_cases k m) as [Hlt|Hge].
    - right. replace (b * m - b) with (b * (m - 1)) by ring.
      apply Z.mul_le_mono_nonneg_l; lia.
    - left. replace (b * m + b) with (b * (m + 1)) by ring.
      apply Z.le_ge, Z.mul_le_mono_nonneg_l; lia. }
  split; [lia|]. intros He _. lia.
Qed.

Lemma pow2_pos (x : Z) : 0 <= x -> 0 < 2 ^ x.
Proof. intros H. apply Z.pow_pos_nonneg; lia. Qed.

Lemma pow2_split (x y : Z) : 0 <= x <= y -> 2 ^ y = 2 ^ x * 2 ^ (y - x).
Proof. intros H. rewrite <- Z.pow_add_r by lia. f_equal. lia. Qed.

Lemma binade_positive (a d : Z) :
  0 < a -> 0 < d ->
  0 <= Js.binade a d
  /\ a < 2 ^ 53 * 2 ^ Js.binade a d * d
  /\ (2 ^ 52 * 2 ^ Js.binade a d * d <= a \/ Js.binade a d = 0).
Proof.
  intros Ha Hd. unfold Js.binade.
  pose proof (Z.log2_spec a Ha) as [La Ua]. pose proof (Z.log2_spec d Hd) as [Ld Ud].
  pose proof (Z.log2_nonneg a) as Na. pose proof (Z.log2_nonneg d) as Nd.
  set (la := Z.log2 a) in *. set (ld := Z.log2 d) in *.
  rewrite Z.pow_succ_r in Ua, Ud by assumption.
  destruct (Z.max_spec (la - ld - 53) 0) as [[Hlt ->]|[Hge ->]].
  - change (2 ^ 0) with 1. rewrite Z.mul_1_r.
    assert (Hb : a < 2 ^ 54 * d).
    { assert (2 ^ (la + 1) <= 2 ^ 54 * 2 ^ ld).
      { rewrite <- Z.pow_add_r by lia. apply Z.pow_le_mono_r; lia. }
      rewrite Z.pow_add_r in H by lia. nia. }
    destruct (Z.leb_spec (2 ^ 53 * d) a) as [H|H].
    + split; [lia|]. change (2 ^ (0 + 1)) with 2. split; [lia|left; lia].
    + split; [lia|]. change (2 ^ 0) with 1. split; [lia|right; reflexivity].
  - set (E0 := la - ld - 53) in *.
    assert (Hla : 2 ^ la = 2 ^ 52 * 2 ^ E0 * (2 * 2 ^ ld)).
    { replace la with (52 + E0 + 1 + ld) by (unfold E0; lia).
      rewrite !Z.pow_add_r by lia. change (2 ^ 1) with 2. ring. }
    pose proof (pow2_pos E0 ltac:(lia)) as PE. pose proof (pow2_pos ld ltac:(lia)) as Pld.
    assert (Hlow : 2 ^ 52 * 2 ^ E0 * d < a) by nia.
    assert (Hup : a < 2 ^ 53 * 2 ^ (E0 + 1) * d).
    { rewrite Z.pow_add_r by lia. change (2 ^ 1) with 2.
      change (2 ^ 53) with (2 * 2 ^ 52). nia. }
    destruct (Z.leb_spec (2 ^ 53 * 2 ^ E0 * d) a) as [H|H].
    + split; [lia|]. split; [exact Hup|left].
      rewrite Z.pow_add_r by lia. change (2 ^ 1) with 2.
      change (2 ^ 53) with (2 * 2 ^ 52) in H. lia.
    + split; [lia|]. split; [exact H|left; lia].
Qed.

Lemma binade_zero (d : Z) : 0 < d -> Js.binade 0 d = 0.
Proof.
  intros Hd. unfold Js.binade. change (Z.log2 0) with 0.
  pose proof (Z.log2_nonneg d). rewrite Z.max_r by lia.
  change (2 ^ 0) with 1. destruct (Z.leb_spec (2 ^ 53 * 1 * d) 0); [lia|reflexivity].
Qed.

(** [binade] gives the exponent of the binade. *)
Lemma binade_bounds (a d : Z) :
  0 <= a -> 0 < d ->
  0 <= Js.binade a d
  /\ a < 2 ^ 53 * 2 ^ Js.binade a d * d
  /\ (2 ^ 52 * 2 ^ Js.binade a d * d <= a \/ Js.binade a d = 0).
Proof.
  intros Ha Hd. destruct (Z.eq_dec a 0) as [->|Hne].
  - rewrite binade_zero by assumption. change (2 ^ 0) with 1. lia.
  - apply binade_positive; lia.
Qed.

(** Rounding [a / d] units to a multiple of [2^E], [E] being the exponent of
    its binade, gives the nearest of all the values [m' * 2^E'] with
    [m' < 2^53]: one of no smaller exponent is a multiple of [2^E] too, and
    one of smaller exponent lies below the binade. *)
Lemma round_in_binade (a d E : Z) :
  0 < d -> 0 <= E -> 0 <= a ->
  a < 2 ^ 53 * 2 ^ E * d ->
  2 ^ 52 * 2 ^ E * d <= a \/ E = 0 ->
  let M := Js.round_half_even a (d * 2 ^ E) in
  0 <= M <= 2 ^ 53
  /\ (2 ^ 52 * 2 ^ E * d <= a -> 2 ^ 52 <= M)
  /\ 2 * Z.abs (M * 2 ^ E * d - a) <= d * 2 ^ E
  /\ forall m' E', 0 <= m' < 2 ^ 53 -> 0 <= E' ->
       Z.abs (M * 2 ^ E * d - a) <= Z.abs (m' * 2 ^ E' * d - a)
       /\ (Z.abs (m' * 2 ^ E' * d - a) = Z.abs (M * 2 ^ E * d - a) ->
           m' * 2 ^ E' <> M * 2 ^ E -> Z.even M = true).
Proof.
  intros Hd HE Ha Hup Hlow M.
  pose proof (pow2_pos E HE) as PE.
  set (D := d * 2 ^ E) in *.
  assert (HD : 0 < D) by (unfold D; nia).
  destruct (round_half_even_spec a D HD) as [Hnear Htie]. fold M in Hnear, Htie.
  assert (E1 : forall x, x * 2 ^ E * d = D * x) by (intros x; unfold D; ring).
  assert (Hup' : a < D * 2 ^ 53) by (unfold D; lia).
  assert (HM : 0 <= M <= 2 ^ 53).
  { split.
    - destruct (Z.lt_ge_cases M 0) as [Hneg|]; [|assumption].
      assert (D * M <= D * (-1)) by (apply Z.mul_le_mono_nonneg_l; lia). lia.
    - destruct (Z.lt_ge_cases (2 ^ 53) M) as [Hbig|]; [|assumption].
      assert (D * (2 ^ 53 + 1) <= D * M) by (apply Z.mul_le_mono_nonneg_l; lia). lia. }
  assert (Hnorm : 2 ^ 52 * 2 ^ E * d <= a -> 2 ^ 52 <= M).
  { intros Hn. rewrite E1 in Hn.
    destruct (Z.lt_ge_cases M (2 ^ 52)) as [Hsmall|]; [|assumption].
    assert (D * M <= D * (2 ^ 52 - 1)) by (apply Z.mul_le_mono_nonneg_l; lia). lia. }
  split; [exact HM|]. split; [exact Hnorm|]. rewrite E1.
  split; [rewrite <- Z.abs_opp; replace (- (D * M - a)) with (a - D * M) by ring; exact Hnear|].
  intros m' E' Hm' HE'.
  replace (Z.abs (D * M - a)) with (Z.abs (a - D * M))
    by (rewrite <- Z.abs_opp; f_equal; ring).
  destruct (Z.le_gt_cases E E') as [Hge|Hlt].
  - set (k := m' * 2 ^ (E' - E)).
    assert (Hk : m' * 2 ^ E' * d = D * k).
    { unfold k, D. rewrite (pow2_split E E') by lia. ring. }
    rewrite Hk.
    replace (Z.abs (D * k - a)) with (Z.abs (a - D * k))
      by (rewrite <- Z.abs_opp; f_equal; ring).
    destruct (nearest_integer a D M k HD Hnear) as [Hle Heq].
    split; [exact Hle|]. intros H1 H2. apply Htie, Heq; [exact H1|].
    intros Hkm. apply H2. rewrite <- Hkm. unfold k.
    rewrite (pow2_split E E') by lia. ring.
  - destruct Hlow as [Hlow| ->]; [|lia].
    rewrite E1 in Hlow.
    assert (Hbelow : m' * 2 ^ E' * d < D * 2 ^ 52).
    { unfold D. rewrite (pow2_split E' E) by lia.
      pose proof (pow2_pos E' HE') as PE'.
      assert (2 <= 2 ^ (E - E')).
      { change 2 with (2 ^ 1) at 1. apply Z.pow_le_mono_r; lia. }
      assert (m' * 2 ^ E' * d < 2 ^ 53 * (2 ^ E' * d)) by nia.
      assert (2 ^ 53 * (2 ^ E' * d) <= 2 ^ 52 * (2 ^ E' * d) * 2 ^ (E - E')).
      { change (2 ^ 53) with (2 ^ 52 * 2). nia. }
      lia. }
    destruct (nearest_integer a D M (2 ^ 52) HD Hnear) as [Hle _].
    split; lia.
Qed.

(** [nearest_binary64] rounds to nearest, ties to even, for every rational
    that is not negative. *)
Lemma nearest_binary64_spec (neg : bool) (n d : Z) :
  0 <= n -> 0 < d -> nearest_to n d neg (Js.nearest_binary64 neg n d).
Proof.
  intros Hn Hd. unfold Js.nearest_binary64.
  assert (P1074 : 0 < 2 ^ 1074) by (apply pow2_pos; lia).
  set (a := n * 2 ^ 1074).
  assert (Ha : 0 <= a) by (unfold a; nia).
  destruct (binade_bounds a d Ha Hd) as (HE & Hup & Hlow).
  set (E := Js.binade a d) in *.
  destruct (round_in_binade a d E Hd HE Ha Hup Hlow) as (HM & Hnorm & Hhalf & Hnear).
  set (M := Js.round_half_even a (d * 2 ^ E)) in *.
  pose proof (pow2_pos E HE) as PE.
  assert (Hnearest : forall m Ef, m * 2 ^ Ef = M * 2 ^ E ->
            (Z.even M = true -> Z.even m = true) -> is_nearest n d m (Ef - 1074)).
  { intros m Ef H Hev m' e' Hm' He'. unfold distance. fold a.
    replace (Ef - 1074 + 1074) with Ef by lia. rewrite H.
    destruct (Hnear m' (e' + 1074) Hm' ltac:(lia)) as [Hle Htie].
    split; [exact Hle|]. intros H1 H2. apply Hev, Htie; assumption. }
  destruct (Z.eqb_spec M (2 ^ 53)) as [Hc|Hc].
  - assert (Hval : 2 ^ 52 * 2 ^ (E + 1) = M * 2 ^ E).
    { rewrite Hc, Z.pow_add_r by lia. change (2 ^ 53) with (2 ^ 52 * 2 ^ 1). ring. }
    change (2 ^ 52) with (Zpos (Z.to_pos (2 ^ 52))).
    destruct (Z.leb_spec (E + 1 - 1074) 971) as [Hfin|Hinf].
    + cbn [nearest_to]. split; [reflexivity|]. split.
      * left. change (Zpos (Z.to_pos (2 ^ 52))) with (2 ^ 52). lia.
      * apply Hnearest; [exact Hval|reflexivity].
    + cbn [nearest_to]. split; [reflexivity|].
      assert (H2045 : 2 ^ 2045 <= 2 ^ E) by (apply Z.pow_le_mono_r; lia).
      assert (Hlo : 2 * a >= d * 2 ^ E * (2 ^ 54 - 1)).
      { rewrite Hc in Hhalf. change (2 ^ 54) with (2 * 2 ^ 53). lia. }
      assert (Hlo' : 2 * a >= d * 2 ^ 2045 * (2 ^ 54 - 1)) by nia.
      unfold a in Hlo'.
      change (2 ^ 2045) with (2 ^ 1075 * 2 ^ 970) in Hlo'.
      change (2 ^ 1075) with (2 * 2 ^ 1074) in Hlo'.
      change (2 ^ 1024) with (2 ^ 970 * 2 ^ 54).
      nia.
  - destruct M as [|p|p] eqn:EM.
    + cbn [nearest_to]. split; [reflexivity|].
      replace (-1074) with (0 - 1074) by lia. apply Hnearest; [|reflexivity].
      change (2 ^ 0) with 1. lia.
    + destruct (Z.leb_spec (E - 1074) 971) as [Hfin|Hinf].
      * cbn [nearest_to]. split; [reflexivity|]. split.
        -- destruct (Z.lt_ge_cases (Zpos p) (2 ^ 52)) as [Hsub|Hnrm].
           ++ right. split; [lia|]. destruct Hlow as [Hlow| ->]; [|lia].
              specialize (Hnorm Hlow). lia.
           ++ left. lia.
        -- apply Hnearest; [reflexivity|auto].
      * cbn [nearest_to]. split; [reflexivity|].
        destruct Hlow as [Hlow|H0]; [|lia].
        assert (H2046 : 2 ^ 2046 <= 2 ^ E) by (apply Z.pow_le_mono_r; lia).
        assert (Hlo' : 2 ^ 52 * 2 ^ 2046 * d <= a) by nia.
        unfold a in Hlo'.
        change (2 ^ 2046) with (2 ^ 1074 * 2 ^ 972) in Hlo'.
        assert (H1024 : 2 ^ 52 * 2 ^ 972 * d <= n) by nia.
        change (2 ^ 52 * 2 ^ 972) with (2 ^ 1024) in H1024.
        assert (0 < 2 ^ 970) by (apply pow2_pos; lia). nia.
    + lia.
Qed.

(** *** Decimal texts of identifiers *)

Lemma digits_prefix_acc (d : Decimal.uint) (p : positive) (len : nat) :
  Js.digits_prefix 10 (NilEmpty.string_of_uint d) (Zpos p) len
  = (Zpos (Pos.of_uint_acc d p), (len + Decimal.nb_digits d)%nat, "").
Proof.
  revert p len. induction d; intros p len; cbn [NilEmpty.string_of_uint Js.digits_prefix].
  1: { cbn. rewrite Nat.add_0_r. reflexivity. }
  all: match goal with
       | |- context [Js.digit_value ?c] =>
           let v := eval vm_compute in (Js.digit_value c) in
           change (Js.digit_value c) with v
       end; cbv beta iota.
  all: match goal with
       | |- context [?k <? 10] => change (k <? 10) with true
       end; cbv beta iota.
  all: cbn [Pos.of_uint_acc Decimal.nb_digits].
  all: match goal with
       | |- Js.digits_prefix 10 _ ?acc _ = (Zpos (Pos.of_uint_acc _ ?q), _, _) =>
           replace acc with (Zpos q) by lia
       end.
  all: rewrite IHd, Nat.add_succ_r; reflexivity.
Qed.

Lemma digits_prefix_uint (d : Decimal.uint) (len : nat) :
  Js.digits_prefix 10 (NilEmpty.string_of_uint d) 0 len
  = (Z.of_N (Pos.of_uint d), (len + Decimal.nb_digits d)%nat, "").
Proof.
  revert len. induction d; intros len; cbn [NilEmpty.string_of_uint Js.digits_prefix].
  1: { cbn. rewrite Nat.add_0_r. reflexivity. }
  all: match goal with
       | |- context [Js.digit_value ?c] =>
           let v := eval vm_compute in (Js.digit_value c) in
           change (Js.digit_value c) with v
       end; cbv beta iota.
  all: match goal with
       | |- context [?k <? 10] => change (k <? 10) with true
       end; cbv beta iota.
  all: cbn [Pos.of_uint Decimal.nb_digits Z.of_N].
  all: match goal with
       | |- context [Js.digits_prefix 10 _ ?acc _] =>
           let v := eval vm_compute in acc in change acc with v
       end.
  1: { rewrite IHd, Nat.add_succ_r. reflexivity. }
  all: rewrite digits_prefix_acc, Nat.add_succ_r; reflexivity.
Qed.

Lemma string_of_uint_plain (d : Decimal.uint) :
  d <> Decimal.Nil ->
  Js.trim_start (NilEmpty.string_of_uint d) = NilEmpty.string_of_uint d
  /\ Js.strip_sign (NilEmpty.string_of_uint d) = (false, NilEmpty.string_of_uint d)
  /\ Js.strip_hex_prefix (NilEmpty.string_of_uint d) = None.
Proof.
  intros Hd. destruct d as [|d|d|d|d|d|d|d|d|d|d]; [congruence|..].
  all: repeat split; try reflexivity.
  destruct d; reflexivity.
Qed.

Lemma parseInt_uint (neg : bool) (d : Decimal.uint) :
  d <> Decimal.Nil ->
  Js.parseInt (if neg then String "-" (NilEmpty.string_of_uint d)
               else NilEmpty.string_of_uint d) 0
  = Js.number_of_integer neg (Z.of_N (Pos.of_uint d)).
Proof.
  intros Hd. destruct (string_of_uint_plain d Hd) as (Ht & Hs & Hx).
  unfold Js.parseInt.
  assert (E : Js.strip_sign (Js.trim_start (if neg then String "-" (NilEmpty.string_of_uint d)
                                            else NilEmpty.string_of_uint d))
              = (neg, NilEmpty.string_of_uint d)).
  { destruct neg; [reflexivity|]. rewrite Ht. exact Hs. }
  rewrite E. cbn [Z.eqb negb andb orb]. rewrite Hx, digits_prefix_uint.
  destruct d; [congruence|..]; reflexivity.
Qed.

(** The decimal text of an integer parses to the Number value of that
    integer. *)
Lemma parseInt_int_to_string_rounded (z : Z) :
  Js.parseInt (Js.int_to_string z) 0 = Js.number_of_integer (z <? 0) (Z.abs z).
Proof.
  unfold Js.int_to_string. destruct z as [|p|p]; [vm_compute; reflexivity|..].
  - pose proof (DecimalPos.Unsigned.to_uint_nonnil p) as Hd.
    pose proof (parseInt_uint false _ Hd) as H. cbv beta iota in H.
    rewrite DecimalPos.Unsigned.of_to in H.
    change (NilZero.string_of_int (Z.to_int (Zpos p)))
      with (NilZero.string_of_uint (Pos.to_uint p)).
    unfold NilZero.string_of_uint. destruct (Pos.to_uint p); [congruence|..]; exact H.
  - pose proof (DecimalPos.Unsigned.to_uint_nonnil p) as Hd.
    pose proof (parseInt_uint true _ Hd) as H. cbv beta iota in H.
    rewrite DecimalPos.Unsigned.of_to in H.
    change (NilZero.string_of_int (Z.to_int (Zneg p)))
      with (String "-" (NilZero.string_of_uint (Pos.to_uint p))).
    unfold NilZero.string_of_uint. destruct (Pos.to_uint p); [congruence|..]; exact H.
Qed.

(** An integer of magnitude at most [2^53] is a binary64 value: it is its
    own Number value. *)
Lemma number_of_integer_exact (neg : bool) (v : Z) :
  0 <= v <= 2 ^ 53 ->
  Js.number_of_integer neg v = Js.Integer (if neg then - v else v).
Proof.
  intros Hv. unfold Js.number_of_integer.
  pose proof (nearest_binary64_spec neg v 1 ltac:(lia) ltac:(lia)) as Hspec.
  assert (P1074 : 0 < 2 ^ 1074) by (apply pow2_pos; lia).
  assert (Hrep : exists m' e', 0 <= m' < 2 ^ 53 /\ -1074 <= e'
                               /\ distance v 1 m' e' = 0).
  { destruct (Z.eq_dec v (2 ^ 53)) as [->|Hne].
    - exists (2 ^ 52), 1. split; [lia|]. split; [lia|]. reflexivity.
    - exists v, 0. split; [lia|]. split; [lia|]. unfold distance.
      change (0 + 1074) with 1074.
      replace (v * 2 ^ 1074 * 1 - v * 2 ^ 1074) with 0 by ring.
      reflexivity. }
  destruct Hrep as (m' & e' & Hm' & He' & H0).
  destruct (Js.nearest_binary64 neg v 1) as [s|s| |s m e]; cbn [nearest_to] in Hspec.
  - destruct Hspec as [_ Hnear]. destruct (Hnear m' e' Hm' He') as [Hle _].
    rewrite H0 in Hle. unfold distance in Hle.
    assert (v = 0) by nia. subst v. destruct neg; reflexivity.
  - destruct Hspec as [_ Hinf]. exfalso.
    assert (2 ^ 53 < 2 ^ 1024 - 2 ^ 970) by (vm_compute; reflexivity). lia.
  - contradiction.
  - destruct Hspec as (-> & Hfmt & Hnear). destruct (Hnear m' e' Hm' He') as [Hle _].
    rewrite H0 in Hle. unfold distance in Hle.
    assert (He : -1074 <= e) by (destruct Hfmt as [[_ ?]|[_ ?]]; lia).
    assert (Hval : Zpos m * 2 ^ (e + 1074) = v * 2 ^ 1074) by lia.
    assert (Hmag : (if 0 <=? e then Zpos m * 2 ^ e else Zpos m / 2 ^ (- e)) = v).
    { destruct (Z.leb_spec 0 e) as [Hpos|Hneg].
      - rewrite Z.pow_add_r, Z.mul_assoc in Hval by lia.
        apply Z.mul_cancel_r in Hval; [exact Hval|lia].
      - rewrite (pow2_split (e + 1074) 1074) in Hval by lia.
        replace (1074 - (e + 1074)) with (- e) in Hval by lia.
        pose proof (pow2_pos (e + 1074) ltac:(lia)) as P1.
        pose proof (pow2_pos (- e) ltac:(lia)) as P2.
        assert (Hm : Zpos m = v * 2 ^ (- e)).
        { apply (Z.mul_cancel_r _ _ (2 ^ (e + 1074))); [lia|]. rewrite Hval. ring. }
        rewrite Hm. apply Z.div_mul. lia. }
    cbv zeta. rewrite Hmag. reflexivity.
Qed.

(** An identifier of magnitude at most [2^53] printed in decimal parses
    back to itself. *)
Lemma parseInt_int_to_string (z : Z) :
  Z.abs z <= 2 ^ 53 -> Js.parseInt (Js.int_to_string z) 0 = Js.Integer z.
Proof.
  intros Hz. rewrite parseInt_int_to_string_rounded.
  rewrite number_of_integer_exact by lia.
  destruct (Z.ltb_spec z 0); f_equal; lia.
Qed.

Lemma string_of_uint_no_comma (d : Decimal.uint) :
  contains Js.comma (NilEmpty.string_of_uint d) = false.
Proof. induction d; cbn [NilEmpty.string_of_uint]; [reflexivity|..]; exact IHd. Qed.

Lemma int_to_string_no_comma (z : Z) : contains Js.comma (Js.int_to_string z) = false.
Proof.
  unfold Js.int_to_string. destruct z as [|p|p]; [reflexivity|..].
  - change (NilZero.string_of_int (Z.to_int (Zpos p)))
      with (NilZero.string_of_uint (Pos.to_uint p)).
    unfold NilZero.string_of_uint.
    destruct (Pos.to_uint p) eqn:E; [reflexivity|..]; rewrite <- E;
      apply string_of_uint_no_comma.
  - change (NilZero.string_of_int (Z.to_int (Zneg p)))
      with (String "-" (NilZero.string_of_uint (Pos.to_uint p))).
    unfold NilZero.string_of_uint.
    destruct (Pos.to_uint p) eqn:E; [reflexivity|..]; rewrite <- E;
      apply (string_of_uint_no_comma (Pos.to_uint p)).
Qed.

Lemma int_to_string_nonempty (z : Z) : Js.truthy_string (Some (Js.int_to_string z)) = true.
Proof.
  unfold Js.int_to_string. destruct z as [|p|p]; [reflexivity| |reflexivity].
  change (NilZero.string_of_int (Z.to_int (Zpos p)))
    with (NilZero.string_of_uint (Pos.to_uint p)).
  pose proof (DecimalPos.Unsigned.to_uint_nonnil p) as Hd.
  unfold NilZero.string_of_uint. destruct (Pos.to_uint p); [congruence|..]; reflexivity.
Qed.

Lemma split_piece (p : string) :
  contains Js.comma p = false -> Js.split Js.comma p = [p].
Proof.
  induction p as [|c p IH]; [reflexivity|]. intros H.
  change (contains Js.comma (String c p)) with (Ascii.eqb Js.comma c || contains Js.comma p) in H.
  apply orb_false_elim in H as [Hc Hp]. cbn [Js.split].
  rewrite Ascii.eqb_sym, Hc, (IH Hp). reflexivity.
Qed.

Lemma split_piece_then (p rest : string) :
  contains Js.comma p = false ->
  Js.split Js.comma (p +:+ String Js.comma rest) = p :: Js.split Js.comma rest.
Proof.
  induction p as [|c p IH]; intros H.
  - reflexivity.
  - change (contains Js.comma (String c p)) with (Ascii.eqb Js.comma c || contains Js.comma p) in H.
    apply orb_false_elim in H as [Hc Hp].
    change (String c p +:+ String Js.comma rest) with (String c (p +:+ String Js.comma rest)).
    cbn [Js.split]. rewrite Ascii.eqb_sym, Hc, (IH Hp). reflexivity.
Qed.

(** Splitting comma-free pieces joined by commas gives the pieces back. *)
Lemma split_join (ps : list string) :
  ps <> [] -> Forall (fun p => contains Js.comma p = false) ps ->
  Js.split Js.comma (join ps) = ps.
Proof.
  induction ps as [|p ps IH]; [congruence|]. intros _ H. inversion H as [|? ? Hp Hps]; subst.
  destruct ps as [|q qs].
  - apply split_piece. exact Hp.
  - rewrite join_cons by discriminate. rewrite split_piece_then by exact Hp.
    rewrite IH; [reflexivity|discriminate|exact Hps].
Qed.

Lemma join_truthy (p : string) (ps : list string) :
  Js.truthy_string (Some p) = true -> Js.truthy_string (Some (join (p :: ps))) = true.
Proof.
  destruct p as [|c p]; [discriminate|]. intros _. destruct ps; reflexivity.
Qed.

(** The pieces of an aggregate are the decimal texts of its identifiers. *)
Lemma pieces_string_agg (ids : list Z) :
  pieces (string_agg ids) = map Js.int_to_string ids.
Proof.
  destruct ids as [|z ids]; [reflexivity|].
  unfold string_agg, pieces.
  change (map Js.int_to_string (z :: ids))
    with (Js.int_to_string z :: map Js.int_to_string ids).
  rewrite join_truthy by apply int_to_string_nonempty.
  apply split_join; [discriminate|].
  change (Forall (fun p => contains Js.comma p = false) (map Js.int_to_string (z :: ids))).
  apply Forall_map. apply Forall_forall. intros x _. apply int_to_string_no_comma.
Qed.

(** *** Decimal numerals *)

Lemma append_cons (c : ascii) (s t : string) : String c s +:+ t = String c (s +:+ t).
Proof. reflexivity. Qed.

Lemma append_nil (t : string) : "" +:+ t = t.
Proof. reflexivity. Qed.

Lemma append_empty (s : string) : s +:+ "" = s.
Proof.
  induction s as [|c s IH]; [reflexivity|].
  change (String c (s +:+ "") = String c s). rewrite IH. reflexivity.
Qed.

(** Reading digits continues the value read so far. *)
Lemma digits_prefix_digits (d : Decimal.uint) (rest : string) (acc : Z) (len : nat) :
  Js.digits_prefix 10 (NilEmpty.string_of_uint d +:+ rest) acc len
  = Js.digits_prefix 10 rest (digits_value d acc) (len + Decimal.nb_digits d).
Proof.
  revert acc len. induction d; intros acc len;
    cbn [NilEmpty.string_of_uint digits_value Decimal.nb_digits];
    rewrite ?append_cons, ?append_nil.
  1: { rewrite Nat.add_0_r. reflexivity. }
  all: cbn [Js.digits_prefix].
  all: match goal with
       | |- context [Js.digit_value ?c] =>
           let v := eval vm_compute in (Js.digit_value c) in
           change (Js.digit_value c) with v
       end; cbv beta iota.
  all: match goal with
       | |- context [?k <? 10] => change (k <? 10) with true
       end; cbv beta iota.
  all: rewrite IHd; f_equal; [f_equal; lia|lia].
Qed.

Lemma digits_value_nonneg (d : Decimal.uint) (acc : Z) : 0 <= acc -> 0 <= digits_value d acc.
Proof.
  revert acc. induction d; intros acc H; cbn [digits_value]; [exact H|..]; apply IHd; lia.
Qed.

Lemma numeral_body (ip : Decimal.uint) (rest : string) :
  ip <> Decimal.Nil ->
  Js.trim_start (NilEmpty.string_of_uint ip +:+ rest) = NilEmpty.string_of_uint ip +:+ rest
  /\ Js.strip_sign (NilEmpty.string_of_uint ip +:+ rest)
     = (false, NilEmpty.string_of_uint ip +:+ rest)
  /\ Js.starts_with_Infinity (NilEmpty.string_of_uint ip +:+ rest) = false
  /\ Decimal.nb_digits ip <> 0%nat.
Proof.
  intros Hd. destruct ip; [congruence|..]; repeat split; discriminate.
Qed.

(** [parseFloat] reads a numeral as the binary64 value nearest to the
    fraction it denotes. *)
Lemma parseFloat_numeral (neg : bool) (ip fp : Decimal.uint) :
  ip <> Decimal.Nil ->
  Js.parseFloat (numeral neg ip fp)
  = Js.Float (Js.nearest_binary64 neg (numerator ip fp) (10 ^ scale fp)).
Proof.
  intros Hd. unfold numeral, numerator, scale.
  set (body := NilEmpty.string_of_uint ip +:+ "." +:+ NilEmpty.string_of_uint fp).
  destruct (numeral_body ip ("." +:+ NilEmpty.string_of_uint fp) Hd) as (Ht & Hs & Hi & Hn).
  fold body in Ht, Hs, Hi.
  assert (E : Js.strip_sign (Js.trim_start ((if neg then "-" else "") +:+ body))
              = (neg, body)).
  { destruct neg; [reflexivity|]. rewrite append_nil, Ht. exact Hs. }
  unfold Js.parseFloat. rewrite E, Hi. unfold body.
  rewrite digits_prefix_digits, append_cons, append_nil. cbn [Js.digits_prefix].
  change (Js.digit_value ".") with (@None Z). cbv beta iota.
  cbn [Js.fraction_part].
  rewrite <- (append_empty (NilEmpty.string_of_uint fp)) at 1.
  rewrite digits_prefix_digits. cbn [Js.digits_prefix Nat.add].
  destruct (Decimal.nb_digits ip) as [|ilen]; [congruence|].
  cbn [Js.exponent_part]. unfold Js.number_of_decimal.
  destruct (Decimal.nb_digits fp) as [|flen].
  - cbn [Z.of_nat Z.sub Z.opp Z.add Z.leb Z.compare]. change (10 ^ 0) with 1.
    rewrite Z.mul_1_r. reflexivity.
  - replace (0 <=? 0 - Z.of_nat (S flen)) with false by (symmetry; apply Z.leb_gt; lia).
    replace (- (0 - Z.of_nat (S flen))) with (Z.of_nat (S flen)) by lia.
    reflexivity.
Qed.

(** [parseFloat] always yields a binary64 value. *)
Lemma parseFloat_is_float s : exists f, Js.parseFloat s = Js.Float f.
Proof.
  unfold Js.parseFloat.
  destruct (Js.strip_sign (Js.trim_start s)) as [neg body].
  destruct (Js.starts_with_Infinity body); [eexists; reflexivity|].
  destruct (Js.digits_prefix 10 body 0 0%nat) as [[ip ilen] rest].
  destruct (Js.fraction_part ip ilen rest) as [[[m flen] rest']|]; eexists; reflexivity.
Qed.

(** ** Lookup objects *)

Section LookupObjects.
Context {A : Type} (key : A -> Z) (val : A -> Js.value).

Lemma fold_insert_lookup (rows : list A) (m : gmap Z Js.value) (z : Z) :
  fold_left (fun m r => <[key r := val r]> m) rows m !! z
  = match last_match (fun r => key r =? z) rows with
    | Some r => Some (val r)
    | None => m !! z
    end.
Proof.
  revert m. induction rows as [|x rest IH]; intros m; simpl; [reflexivity|].
  rewrite IH. destruct (last_match _ rest); [reflexivity|].
  destruct (Z.eqb_spec (key x) z) as [->|Hne].
  - apply lookup_insert_eq.
  - apply lookup_insert_ne. exact Hne.
Qed.

Lemma last_match_Some (p : A -> bool) rows r :
  last_match p rows = Some r -> In r rows /\ p r = true.
Proof.
  induction rows as [|x rest IH]; simpl; [discriminate|].
  destruct (last_match p rest) as [y|].
  - intros [= ->]. destruct IH as [? ?]; auto.
  - destruct (p x) eqn:E; [|discriminate]. intros [= ->]. auto.
Qed.

Lemma last_match_None (p : A -> bool) rows :
  last_match p rows = None <-> (forall r, In r rows -> p r = false).
Proof.
  induction rows as [|x rest IH]; simpl.
  - split; [intros _ r []|reflexivity].
  - destruct (last_match p rest) as [y|] eqn:E.
    + split; [discriminate|]. intros H.
      destruct (last_match_Some p rest y E) as [Hin Hp].
      rewrite (H y) in Hp by auto. discriminate.
    + destruct (p x) eqn:Ex.
      * split; [discriminate|]. intros H. rewrite (H x) in Ex by auto. discriminate.
      * split; [|reflexivity]. intros _ r [<-|Hin]; [assumption|].
        apply IH; [reflexivity|assumption].
Qed.
End LookupObjects.

(** The category mapping holds, for each category identifier of the source,
    the reduced form of the (last) row with that identifier, and nothing
    else. *)
Lemma categoriesMapOf_lookup (cats : list Category.row) (z : Z) :
  categoriesMapOf cats !! z
  = (fun c => reduced z (Category.name c))
      <$> last_match (fun c => Category.category_id c =? z) cats.
Proof.
  unfold categoriesMapOf.
  rewrite (fold_insert_lookup Category.category_id
             (fun c => reduced (Category.category_id c) (Category.name c))).
  destruct (last_match _ cats) as [c|] eqn:E; simpl; [|apply lookup_empty].
  apply last_match_Some in E as [_ E]. apply Z.eqb_eq in E. rewrite E. reflexivity.
Qed.

Lemma languagesMapOf_lookup (langs : list Language.row) (z : Z) :
  languagesMapOf langs !! z
  = (fun l => reduced z (Language.name l))
      <$> last_match (fun l => Language.language_id l =? z) langs.
Proof.
  unfold languagesMapOf.
  rewrite (fold_insert_lookup Language.language_id
             (fun l => reduced (Language.language_id l) (Language.name l))).
  destruct (last_match _ langs) as [l|] eqn:E; simpl; [|apply lookup_empty].
  apply last_match_Some in E as [_ E]. apply Z.eqb_eq in E. rewrite E. reflexivity.
Qed.

Lemma categoriesMapOf_unmatched (cats : list Category.row) (z : Z) :
  (forall c, In c cats -> Category.category_id c <> z) -> categoriesMapOf cats !! z = None.
Proof.
  intros H. rewrite categoriesMapOf_lookup.
  replace (last_match _ cats) with (@None Category.row); [reflexivity|].
  symmetry. apply last_match_None. intros c Hc. apply Z.eqb_neq. auto.
Qed.

Lemma categoriesMapOf_truthy (cats : list Category.row) (z : Z) (v : Js.value) :
  categoriesMapOf cats !! z = Some v -> Js.truthy v = true.
Proof.
  rewrite categoriesMapOf_lookup. destruct (last_match _ cats); simpl; [|discriminate].
  intros [= <-]. reflexivity.
Qed.

(** ** Film documents *)

(** Dropping the undefined results of the lookups keeps exactly the entries
    found, in order. *)
Lemma filter_lookups (m : gmap Z Js.value) (ids : list string) :
  (forall z v, m !! z = Some v -> Js.truthy v = true) ->
  List.filter Js.truthy (map (fun id => Js.lookup_key m (Js.parseInt id 0)) ids)
  = omap (entry m) ids.
Proof.
  intros Hm. induction ids as [|id ids IH]; [reflexivity|].
  change (omap (entry m) (id :: ids))
    with (match entry m id with
          | Some y => y :: omap (entry m) ids
          | None => omap (entry m) ids
          end).
  cbn [map List.filter]. rewrite IH. generalize (omap (entry m) ids) as rest. intros rest.
  unfold entry, entry_at, Js.lookup_key.
  destruct (Js.parseInt id 0) as [z|f]; [|reflexivity].
  destruct (m !! z) as [v|] eqn:E; simpl; [|reflexivity].
  rewrite (Hm z v E). reflexivity.
Qed.

Lemma omap_entry_rounded (m : gmap Z Js.value) (ids : list Z) :
  omap (entry m) (map Js.int_to_string ids)
  = omap (fun z => entry_at m (Js.number_of_integer (z <? 0) (Z.abs z))) ids.
Proof.
  induction ids as [|z ids IH]; [reflexivity|].
  cbn [map omap list_omap]. rewrite IH. unfold entry at 1.
  rewrite parseInt_int_to_string_rounded. reflexivity.
Qed.

Lemma omap_entry (m : gmap Z Js.value) (ids : list Z) :
  Forall (fun z => Z.abs z <= 2 ^ 53) ids ->
  omap (entry m) (map Js.int_to_string ids) = omap (fun z => m !! z) ids.
Proof.
  induction 1 as [|z ids Hz Hids IH]; [reflexivity|].
  cbn [map omap list_omap]. rewrite IH. unfold entry at 1.
  rewrite parseInt_int_to_string by exact Hz. reflexivity.
Qed.

(** C3: the categories list of a film document holds, for each identifier
    of the category aggregate in aggregate order, the entry of the category
    mapping for it, an identifier without entry being left out (an absent or
    empty aggregate gives the empty list); the entry for an identifier is the
    [{id, name}] form of the category row with that identifier, and there is
    none when no row has it.  Building the list raises nothing.  An
    identifier is looked up as the Number [parseInt] reads, which is the
    identifier itself up to a magnitude of [2^53]. *)
Theorem film_categories_resolved (languagesMap : gmap Z Js.value)
    (cats : list Category.row) (film : Film.row) :
  Js.field "categories" (filmDoc languagesMap (categoriesMapOf cats) film)
  = Js.Arr (omap (entry (categoriesMapOf cats)) (pieces (Film.category_ids film)))
  /\ (forall ids : list Z,
        Film.category_ids film = string_agg ids ->
        Js.field "categories" (filmDoc languagesMap (categoriesMapOf cats) film)
        = Js.Arr (omap (fun z => entry_at (categoriesMapOf cats)
                                   (Js.number_of_integer (z <? 0) (Z.abs z))) ids)
        /\ (Forall (fun z => Z.abs z <= 2 ^ 53) ids ->
            Js.field "categories" (filmDoc languagesMap (categoriesMapOf cats) film)
            = Js.Arr (omap (fun z => categoriesMapOf cats !! z) ids)))
  /\ (forall z : Z,
        categoriesMapOf cats !! z
        = (fun c => reduced z (Category.name c))
            <$> last_match (fun c => Category.category_id c =? z) cats).
Proof.
  assert (H : Js.field "categories" (filmDoc languagesMap (categoriesMapOf cats) film)
              = Js.Arr (omap (entry (categoriesMapOf cats))
                             (pieces (Film.category_ids film)))).
  { change (Js.field "categories" (filmDoc languagesMap (categoriesMapOf cats) film))
      with (Js.Arr (filmCategories (categoriesMapOf cats) film)).
    unfold filmCategories. rewrite filter_lookups; [reflexivity|].
    apply categoriesMapOf_truthy. }
  split; [exact H|]. split; [|apply categoriesMapOf_lookup].
  intros ids Hids. rewrite H, Hids, pieces_string_agg. split.
  - rewrite omap_entry_rounded. reflexivity.
  - intros Hsafe. rewrite omap_entry by exact Hsafe. reflexivity.
Qed.

Lemma film_categories_resolved_witness :
  (Film.category_ids sample_film = string_agg [1; 2; 99]
   /\ Forall (fun z => Z.abs z <= 2 ^ 53) [1; 2; 99])
  /\ Js.field "categories"
       (filmDoc (languagesMapOf sample_languages) (categoriesMapOf sample_categories)
                sample_film)
     = Js.Arr (omap (fun z => categoriesMapOf sample_categories !! z) [1; 2; 99]).
Proof.
  assert (H : Film.category_ids sample_film = string_agg [1; 2; 99]) by reflexivity.
  assert (S : Forall (fun z => Z.abs z <= 2 ^ 53) [1; 2; 99])
    by (repeat constructor; vm_compute; discriminate).
  split; [split; [exact H|exact S]|].
  exact (proj2 (proj1 (proj2 (film_categories_resolved (languagesMapOf sample_languages)
                                sample_categories sample_film)) [1; 2; 99] H) S).
Defined.

(** Categories 1, 2 and 99 where the source has no category 99. *)
Example categories_1_2_99 :
  Js.field "categories"
    (filmDoc (languagesMapOf sample_languages) (categoriesMapOf sample_categories) sample_film)
  = Js.Arr [reduced 1 "Action"; reduced 2 "Animation"].
Proof. vm_compute. reflexivity. Qed.

(** C4 as stated fails: a film whose actor aggregate names actor 99, where
    the source has no actor 99, still lists 99 among its actors. *)
Lemma stale_actor_reference_kept :
  Film.actor_ids sample_film = string_agg [1; 99]
  /\ (forall a, In a sample_actors -> Actor.actor_id a <> 99)
  /\ In (Js.Num (Js.Integer 99))
        (items (Js.field "actors"
                  (filmDoc (languagesMapOf sample_languages)
                           (categoriesMapOf sample_categories) sample_film))).
Proof.
  split; [|split].
  - reflexivity.
  - intros a [<-|[]]. discriminate.
  - vm_compute. auto.
Qed.

(** C4, amended: the actors list of a film document holds every identifier
    of the actor aggregate, parsed as an integer, in aggregate order and
    whatever the actor rows of the source are; none is dropped, and an absent
    or empty aggregate gives the empty list.  Parsing gives the Number value
    of the identifier, which is the identifier itself for a magnitude of at
    most [2^53]. *)
Theorem film_actors_kept (languagesMap categoriesMap : gmap Z Js.value) (film : Film.row) :
  Js.field "actors" (filmDoc languagesMap categoriesMap film)
  = Js.Arr (map (fun id => Js.Num (Js.parseInt id 0)) (pieces (Film.actor_ids film)))
  /\ (forall ids : list Z,
        Film.actor_ids film = string_agg ids ->
        Js.field "actors" (filmDoc languagesMap categoriesMap film)
        = Js.Arr (map (fun z => Js.Num (Js.number_of_integer (z <? 0) (Z.abs z))) ids)
        /\ (Forall (fun z => Z.abs z <= 2 ^ 53) ids ->
            Js.field "actors" (filmDoc languagesMap categoriesMap film)
            = Js.Arr (map (fun z => Js.Num (Js.Integer z)) ids))).
Proof.
  change (Js.field "actors" (filmDoc languagesMap categoriesMap film))
    with (Js.Arr (filmActorIds film)).
  unfold filmActorIds. split; [reflexivity|].
  intros ids ->. rewrite pieces_string_agg, map_map. split.
  - f_equal. apply map_ext. intros z. rewrite parseInt_int_to_string_rounded. reflexivity.
  - intros Hsafe. f_equal. apply map_ext_in. intros z Hz.
    pose proof (proj1 (List.Forall_forall _ _) Hsafe z Hz) as Hb.
    rewrite parseInt_int_to_string by exact Hb. reflexivity.
Qed.

Lemma film_actors_kept_witness :
  (Film.actor_ids sample_film = string_agg [1; 99]
   /\ Forall (fun z => Z.abs z <= 2 ^ 53) [1; 99])
  /\ Js.field "actors"
       (filmDoc (languagesMapOf sample_languages) (categoriesMapOf sample_categories)
                sample_film)
     = Js.Arr [Js.Num (Js.Integer 1); Js.Num (Js.Integer 99)].
Proof.
  assert (H : Film.actor_ids sample_film = string_agg [1; 99]) by reflexivity.
  assert (S : Forall (fun z => Z.abs z <= 2 ^ 53) [1; 99])
    by (repeat constructor; vm_compute; discriminate).
  split; [split; [exact H|exact S]|].
  exact (proj2 (proj2 (film_actors_kept (languagesMapOf sample_languages)
                         (categoriesMapOf sample_categories) sample_film) [1; 99] H) S).
Defined.

(** C5 as stated fails: identifier 0 is not absent, and the language
    mapping resolves it, yet the document records null. *)
Lemma original_language_zero_is_null :
  Film.original_language_id film_with_language_zero = Some 0
  /\ Js.lookup_key (languagesMapOf language_zero) (Js.Integer 0) = reduced 0 "Esperanto"
  /\ Js.field "original_language"
       (filmDoc (languagesMapOf language_zero) ∅ film_with_language_zero) = Js.Null
  /\ Js.field "original_language"
       (filmDoc (languagesMapOf language_zero) ∅ film_with_language_zero)
     <> Js.lookup_key (languagesMapOf language_zero) (Js.Integer 0).
Proof.
  repeat split; try (vm_compute; reflexivity).
  vm_compute. discriminate.
Qed.

Lemma original_language_value (languagesMap categoriesMap : gmap Z Js.value)
    (film : Film.row) :
  Js.field "original_language" (filmDoc languagesMap categoriesMap film)
  = match Film.original_language_id film with
    | None => Js.Null
    | Some id => if id =? 0 then Js.Null
                 else Js.lookup_key languagesMap (Js.Integer id)
    end.
Proof.
  change (Js.field "original_language" (filmDoc languagesMap categoriesMap film))
    with (match Film.original_language_id film with
          | Some id => if Js.truthy_int (Some id)
                       then Js.lookup_key languagesMap (Js.Integer id)
                       else Js.Null
          | None => Js.Null
          end).
  destruct (Film.original_language_id film) as [id|]; [|reflexivity].
  simpl. destruct (id =? 0); reflexivity.
Qed.

(** C5, amended: every film document has the key [original_language]; its
    value is null when the source identifier is absent or zero, and otherwise
    the value the language mapping has for the identifier, which for an
    identifier of the mapping is its [{id, name}] object. *)
Theorem original_language_field (languagesMap categoriesMap : gmap Z Js.value)
    (film : Film.row) :
  Js.has_key "original_language" (filmDoc languagesMap categoriesMap film) = true
  /\ Js.field "original_language" (filmDoc languagesMap categoriesMap film)
     = match Film.original_language_id film with
       | None => Js.Null
       | Some id => if id =? 0 then Js.Null
                    else Js.lookup_key languagesMap (Js.Integer id)
       end.
Proof. split; [reflexivity|apply original_language_value]. Qed.

(** An original language 7 named Klingon is embedded as [{id: 7, name: "Klingon"}]. *)
Example original_language_klingon (film : Film.row) (categoriesMap : gmap Z Js.value) :
  Film.original_language_id film = Some 7 ->
  Js.field "original_language" (filmDoc (languagesMapOf sample_languages) categoriesMap film)
  = reduced 7 "Klingon".
Proof. intros H. rewrite original_language_value, H. reflexivity. Qed.




(** C7: the [special_features] key is always present; its value is the list
    of the pieces of the source text between commas when the text is not
    empty, and the empty list when the text is empty or absent.  The pieces
    joined by commas give the text back and no piece contains a comma. *)
Theorem special_features_field (languagesMap categoriesMap : gmap Z Js.value)
    (film : Film.row) :
  Js.has_key "special_features" (filmDoc languagesMap categoriesMap film) = true
  /\ Js.field "special_features" (filmDoc languagesMap categoriesMap film)
     = Js.Arr (match Film.special_features film with
               | None => []
               | Some "" => []
               | Some text => map Js.Str (Js.split Js.comma text)
               end)
  /\ forall text : string,
       join (Js.split Js.comma text) = text
       /\ Forall (fun p => contains Js.comma p = false) (Js.split Js.comma text).
Proof.
  split; [reflexivity|]. split.
  - change (Js.field "special_features" (filmDoc languagesMap categoriesMap film))
      with (Js.Arr (map Js.Str (pieces (Film.special_features film)))).
    destruct (Film.special_features film) as [[|c text]|]; reflexivity.
  - intros text. split; [apply join_split|apply split_no_comma].
Qed.

Example special_features_two :
  Js.field "special_features" (filmDoc ∅ ∅ sample_film)
  = Js.Arr [Js.Str "Deleted Scenes"; Js.Str "Behind the Scenes"].
Proof. vm_compute. reflexivity. Qed.

(** The binary64 value nearest to 4.99: the significand [m] at exponent
    [-50] with [|m * 2^-50 - 499/100| <= 2^-51]. *)
Lemma nearest_4_99 :
  let m := 5618240535144694 in
  2 ^ 52 <= m < 2 ^ 53 /\ Z.abs (100 * m - 499 * 2 ^ 50) <= 50.
Proof. vm_compute. split; [split|]; congruence. Qed.

(** C10: [rental_rate] and [replacement_cost] of a film document are the
    binary64 Numbers that [parseFloat] reads from the source text, never the
    text.  When the source text is a numeral (an optional minus sign, integer
    digits, a point, fraction digits) the Number is the binary64 rounding of
    the fraction the numeral denotes: no binary64 value is nearer to it, and
    of two equally near the one with the even significand is taken.  For the
    text 4.99 this is the 53-bit significand 5618240535144694 at exponent
    -50, within half a unit in the last place of 499/100. *)
Theorem monetary_fields_are_numbers (languagesMap categoriesMap : gmap Z Js.value)
    (film : Film.row) :
  (exists rate cost : spec_float,
     Js.parseFloat (Film.rental_rate film) = Js.Float rate
     /\ Js.parseFloat (Film.replacement_cost film) = Js.Float cost
     /\ Js.field "rental_rate" (filmDoc languagesMap categoriesMap film)
        = Js.Num (Js.Float rate)
     /\ Js.field "replacement_cost" (filmDoc languagesMap categoriesMap film)
        = Js.Num (Js.Float cost))
  /\ (forall (neg : bool) (integer fraction : Decimal.uint),
        integer <> Decimal.Nil ->
        (Film.rental_rate film = numeral neg integer fraction ->
         exists f : spec_float,
           Js.field "rental_rate" (filmDoc languagesMap categoriesMap film)
           = Js.Num (Js.Float f)
           /\ nearest_to (numerator integer fraction) (10 ^ scale fraction) neg f)
        /\ (Film.replacement_cost film = numeral neg integer fraction ->
            exists f : spec_float,
              Js.field "replacement_cost" (filmDoc languagesMap categoriesMap film)
              = Js.Num (Js.Float f)
              /\ nearest_to (numerator integer fraction) (10 ^ scale fraction) neg f))
  /\ (Film.rental_rate film = "4.99" ->
      Js.field "rental_rate" (filmDoc languagesMap categoriesMap film)
      = Js.Num (Js.Float (S754_finite false 5618240535144694 (-50)))
      /\ Js.field "rental_rate" (filmDoc languagesMap categoriesMap film) <> Js.Str "4.99"
      /\ 2 ^ 52 <= 5618240535144694 < 2 ^ 53
      /\ Z.abs (100 * 5618240535144694 - 499 * 2 ^ 50) <= 50).
Proof.
  change (Js.field "rental_rate" (filmDoc languagesMap categoriesMap film))
    with (Js.Num (Js.parseFloat (Film.rental_rate film))).
  change (Js.field "replacement_cost" (filmDoc languagesMap categoriesMap film))
    with (Js.Num (Js.parseFloat (Film.replacement_cost film))).
  split; [|split].
  - destruct (parseFloat_is_float (Film.rental_rate film)) as [rate Hr].
    destruct (parseFloat_is_float (Film.replacement_cost film)) as [cost Hc].
    exists rate, cost. rewrite Hr, Hc. auto.
  - intros neg ip fp Hip.
    assert (Hnear : nearest_to (numerator ip fp) (10 ^ scale fp) neg
                      (Js.nearest_binary64 neg (numerator ip fp) (10 ^ scale fp))).
    { apply nearest_binary64_spec.
      - apply digits_value_nonneg, digits_value_nonneg. lia.
      - apply Z.pow_pos_nonneg; [lia|]. unfold scale. lia. }
    split; intros ->; rewrite parseFloat_numeral by exact Hip; eauto.
  - intros ->. split; [vm_compute; reflexivity|]. split; [discriminate|].
    exact nearest_4_99.
Qed.

Lemma monetary_fields_are_numbers_witness :
  (Decimal.D4 Decimal.Nil <> Decimal.Nil
   /\ Film.rental_rate sample_film
      = numeral false (Decimal.D4 Decimal.Nil) (Decimal.D9 (Decimal.D9 Decimal.Nil))
   /\ Film.rental_rate sample_film = "4.99")
  /\ (exists f : spec_float,
        Js.field "rental_rate" (filmDoc ∅ ∅ sample_film) = Js.Num (Js.Float f)
        /\ nearest_to 499 100 false f)
  /\ Js.field "rental_rate" (filmDoc ∅ ∅ sample_film)
     = Js.Num (Js.Float (S754_finite false 5618240535144694 (-50))).
Proof.
  assert (H0 : Decimal.D4 Decimal.Nil <> Decimal.Nil) by discriminate.
  assert (H1 : Film.rental_rate sample_film
               = numeral false (Decimal.D4 Decimal.Nil)
                   (Decimal.D9 (Decimal.D9 Decimal.Nil))) by reflexivity.
  assert (H2 : Film.rental_rate sample_film = "4.99") by reflexivity.
  split; [auto|]. split.
  - exact (proj1 (proj1 (proj2 (monetary_fields_are_numbers ∅ ∅ sample_film))
                    false _ _ H0) H1).
  - exact (proj1 (proj2 (proj2 (monetary_fields_are_numbers ∅ ∅ sample_film)) H2)).
Defined.

(** ** Running blocks *)

Lemma bind_run {A B} (m : M A) (k : A -> M B) (st : state) :
  (m ≫= k) st
  = match m st with
    | (Normal a, st') => k a st'
    | (Thrown e, st') => (Thrown e, st')
    | (Exited c, st') => (Exited c, st')
    end.
Proof. reflexivity. Qed.

Lemma added_app (st st' : state) (evs : list event) :
  trace st' = (trace st ++ evs)%list -> added st st' = evs.
Proof. unfold added. intros ->. apply drop_app_length. Qed.

(** A relation between the state before and after a block that every step
    of the block respects is respected by the block, whatever way it
    completes. *)
Section Respects.
Variable R : state -> state -> Prop.
Hypothesis R_refl : forall st, R st st.
Hypothesis R_trans : forall a b c, R a b -> R b c -> R a c.

Lemma respects_ret {A} (a : A) : respects R (mret a).
Proof. intros st. apply R_refl. Qed.

Lemma respects_gets {A} (f : state -> A) : respects R (gets f).
Proof. intros st. apply R_refl. Qed.

Lemma respects_exit {A} (c : Z) : respects R (@process_exit A c).
Proof. intros st. apply R_refl. Qed.

Lemma respects_modify (f : state -> state) :
  (forall st, R st (f st)) -> respects R (modify f).
Proof. intros H st. apply H. Qed.

Lemma respects_bind {A B} (m : M A) (k : A -> M B) :
  respects R m -> (forall a, respects R (k a)) -> respects R (m ≫= k).
Proof.
  intros Hm Hk st. rewrite bind_run. specialize (Hm st).
  destruct (m st) as [[a|e|c] st']; simpl in *; [|assumption..].
  eapply R_trans; [exact Hm|apply Hk].
Qed.

Lemma respects_call (e : event) (effect : state -> state) :
  (forall st, R st (record_event e st)) -> (forall st, R st (effect st)) ->
  respects R (call e effect).
Proof.
  intros He Heff st. unfold call. destruct (fails st (trace st) e); simpl.
  - apply He.
  - eapply R_trans; [apply He|apply Heff].
Qed.

Lemma respects_log (msg : string) :
  (forall st, R st (record_event (ConsoleLog msg) st)) -> respects R (console_log msg).
Proof. intros H. apply respects_modify. exact H. Qed.

Lemma respects_console_error (msg : string) (e : error) :
  (forall c st, R st (record_event (ConsoleError msg c) st)) ->
  respects R (console_error msg e).
Proof. intros H. destruct e as [c]. apply respects_modify. apply H. Qed.

Lemma respects_for_each {A} (xs : list A) (body : A -> M unit) :
  (forall x, respects R (body x)) -> respects R (for_each xs body).
Proof.
  intros H. induction xs as [|x rest IH]; simpl.
  - apply respects_ret.
  - apply respects_bind; [apply H|intros _; exact IH].
Qed.

Lemma respects_when_assigned {A} (handle : option A) (body : M unit) :
  respects R body -> respects R (when_assigned handle body).
Proof. intros H. destruct handle; simpl; [exact H|apply respects_ret]. Qed.

Lemma respects_try_catch_finally {A} (body : M A) (handler : error -> M A)
    (cleanup : M unit) :
  respects R body -> (forall e, respects R (handler e)) -> respects R cleanup ->
  respects R (try_catch_finally body handler cleanup).
Proof.
  intros Hb Hh Hc st. unfold try_catch_finally.
  assert (Hcompl : R st (snd (match body st with
                               | (Thrown e, st') => handler e st'
                               | other => other
                               end))).
  { specialize (Hb st). destruct (body st) as [[a|e|c] st']; simpl in *; try assumption.
    eapply R_trans; [exact Hb|apply Hh]. }
  destruct (match body st with
            | (Thrown e, st') => handler e st'
            | other => other
            end) as [[a|e|c] st']; simpl in *; try assumption;
    (eapply R_trans; [exact Hcompl|]); specialize (Hc st');
    destruct (cleanup st') as [[u|e'|c'] st'']; simpl in *; assumption.
Qed.
End Respects.

Lemma only_refl P st : only P st st.
Proof. split; [reflexivity|]. exists []. rewrite app_nil_r. auto. Qed.

Lemma only_trans P a b c : only P a b -> only P b c -> only P a c.
Proof.
  intros [Hab (e1 & T1 & F1)] [Hbc (e2 & T2 & F2)]. split; [congruence|].
  exists (e1 ++ e2)%list. rewrite T2, T1, <- app_assoc. split; [reflexivity|].
  rewrite forallb_app, F1, F2. reflexivity.
Qed.

Lemma only_event (P : event -> bool) e st : P e = true -> only P st (record_event e st).
Proof. intros H. split; [reflexivity|]. exists [e]. simpl. rewrite H. auto. Qed.

Lemma only_silent (P : event -> bool) (st st' : state) :
  env st' = env st -> trace st' = trace st -> only P st st'.
Proof. intros He Ht. split; [exact He|]. exists []. rewrite app_nil_r. auto. Qed.

Lemma same_stores_refl st : same_stores st st.
Proof. repeat split. Qed.

Lemma same_stores_trans a b c : same_stores a b -> same_stores b c -> same_stores a c.
Proof. intros (?&?&?) (?&?&?). repeat split; congruence. Qed.

Create HintDb respects_db.

#[export] Hint Resolve only_refl only_trans same_stores_refl same_stores_trans : respects_db.

(** Decomposes a block into its steps, [special] being tried first on each. *)
Ltac respects_steps_but special :=
  repeat first
    [ special
    | apply respects_ret; eauto with respects_db
    | apply respects_gets; eauto with respects_db
    | apply respects_exit; eauto with respects_db
    | apply respects_bind; [eauto with respects_db| |intros ?]
    | apply respects_for_each; [eauto with respects_db..|intros ?]
    | apply respects_when_assigned; [eauto with respects_db..|]
    | apply respects_call; [eauto with respects_db..| |]
    | apply respects_log; [eauto with respects_db..]
    | apply respects_console_error; [eauto with respects_db..]
    | lazymatch goal with
      | |- respects _ (modify _) => apply respects_modify
      | |- respects _ (if ?c then _ else _) => destruct c
      end ].

Ltac respects_steps := respects_steps_but fail.

(** Closes the obligations of the single steps for [only P]. *)
Ltac only_step :=
  intros;
  first [ apply only_event; reflexivity
        | apply only_silent; reflexivity ].

(** ** What the phases of runMigration may do *)

Lemma connectDatabases_events : respects (only connection_event) connectDatabases.
Proof. unfold connectDatabases. respects_steps; only_step. Qed.

Lemma connectDatabases_stores : respects same_stores connectDatabases.
Proof.
  unfold connectDatabases. respects_steps; intros; repeat split.
Qed.

Lemma migrateAll_no_cleanup : respects (only not_cleanup) migrateAll.
Proof.
  unfold migrateAll, migrateCountriesToRedis, migrateCitiesToRedis, fetchLanguages,
    fetchCategories, migrateActorsToMongoDB, migrateFilmsToMongoDB, fetchCountries,
    fetchCities, fetchActors, fetchFilms, pg_query, redis_hSet, mongo_insertMany.
  respects_steps; only_step.
Qed.

Lemma closeConnections_no_cleanup : respects (only not_cleanup) closeConnections.
Proof. unfold closeConnections. respects_steps; only_step. Qed.

Lemma only_mono (P Q : event -> bool) st st' :
  (forall e, P e = true -> Q e = true) -> only P st st' -> only Q st st'.
Proof.
  intros H [He (evs & T & F)]. split; [exact He|]. exists evs. split; [exact T|].
  rewrite forallb_forall in *. auto.
Qed.

Lemma respects_mono (R R' : state -> state -> Prop) {A} (m : M A) :
  (forall st st', R st st' -> R' st st') -> respects R m -> respects R' m.
Proof. intros H Hm st. apply H, Hm. Qed.

Lemma bind_assoc {A B C} (m : M A) (k : A -> M B) (h : B -> M C) (st : state) :
  ((m ≫= k) ≫= h) st = (m ≫= (fun a => k a ≫= h)) st.
Proof.
  rewrite !bind_run. destruct (m st) as [[a|e|c] st']; reflexivity.
Qed.

(** The flag is read with [=== 'true']. *)
Lemma clearNoSqlData_skipped (st : state) :
  env st !! "CLEAR_NOSQL_DATA" <> Some "true" -> clearNoSqlData st = (Normal tt, st).
Proof.
  intros H. unfold clearNoSqlData. rewrite bind_run. simpl.
  destruct (decide (env st !! "CLEAR_NOSQL_DATA" = Some "true")); [contradiction|reflexivity].
Qed.

Lemma clearNoSqlData_no_query : respects (only not_query) clearNoSqlData.
Proof.
  unfold clearNoSqlData, redis_flushDb, mongo_deleteMany. respects_steps; only_step.
Qed.

(** Runs the block in hypothesis [H : block st = result] symbolically,
    splitting on whether each driver call raises. *)
Ltac run_in H :=
  cbv beta iota delta [mbind M_bind mret M_ret gets modify call console_log
                       when_assigned] in H;
  repeat match type of H with
    | context [fails ?st ?h ?e] =>
        destruct (fails st h e) eqn:?; cbv beta iota in H; try discriminate H
    end.

(** With the flag set, a cleanup that completes has flushed the key-value
    store and emptied both collections by exactly three driver calls. *)
Lemma clearNoSqlData_done (st st' : state) :
  env st !! "CLEAR_NOSQL_DATA" = Some "true" ->
  clearNoSqlData st = (Normal tt, st') ->
  redis st' = ∅
  /\ collection st' "films" = []
  /\ collection st' "actors" = []
  /\ trace st'
     = (trace st ++ [RedisFlushDb; ConsoleLog "Redis flushed."; MongoDeleteMany "films";
                     MongoDeleteMany "actors"; ConsoleLog "MongoDB collections cleared."])%list.
Proof.
  intros Hflag H. unfold clearNoSqlData, redis_flushDb, mongo_deleteMany in H.
  rewrite bind_run in H. unfold gets in H. cbv beta iota in H.
  destruct (decide (env st !! "CLEAR_NOSQL_DATA" = Some "true")); [|contradiction].
  run_in H. injection H as <-. unfold collection. simpl.
  rewrite lookup_insert_ne by discriminate. rewrite !lookup_insert_eq. simpl.
  rewrite <- !app_assoc. simpl. auto.
Qed.

Lemma filter_none (P Q : event -> bool) (evs : list event) :
  (forall e, P e = true -> Q e = false) -> forallb P evs = true -> List.filter Q evs = [].
Proof.
  intros H. induction evs as [|e evs IH]; simpl; [reflexivity|].
  intros F. apply andb_prop in F as [He F]. rewrite (H e He). auto.
Qed.

Lemma unless_cleared_refl st : unless_cleared st st.
Proof. intros _. apply only_refl. Qed.

Lemma unless_cleared_trans a b c :
  unless_cleared a b -> unless_cleared b c -> unless_cleared a c.
Proof.
  intros Hab Hbc Hflag. specialize (Hab Hflag).
  eapply only_trans; [exact Hab|]. apply Hbc. destruct Hab as [-> _]. exact Hflag.
Qed.

Lemma unless_cleared_of_only (P : event -> bool) {A} (m : M A) :
  (forall e, P e = true -> not_cleanup e = true) ->
  respects (only P) m -> respects unless_cleared m.
Proof.
  intros H. apply respects_mono. intros st st' Ho _. eapply only_mono; eassumption.
Qed.

Lemma runMigration_unless_cleared : respects unless_cleared runMigration.
Proof.
  unfold runMigration.
  apply respects_try_catch_finally;
    [exact unless_cleared_trans| | |].
  - apply respects_bind; [exact unless_cleared_trans| |intros _].
    + apply (unless_cleared_of_only connection_event); [|exact connectDatabases_events].
      intros [] H; (discriminate || reflexivity).
    + apply respects_bind; [exact unless_cleared_trans| |intros _].
      * intros st Hflag. rewrite (clearNoSqlData_skipped st Hflag). apply only_refl.
      * apply (unless_cleared_of_only not_cleanup); [auto|exact migrateAll_no_cleanup].
  - intros e. apply (unless_cleared_of_only not_cleanup); [auto|].
    respects_steps; only_step.
  - apply (unless_cleared_of_only not_cleanup); [auto|exact closeConnections_no_cleanup].
Qed.

Lemma only_filter_none (P Q : event -> bool) st st' :
  (forall e, P e = true -> Q e = false) -> only P st st' ->
  List.filter Q (added st st') = [].
Proof.
  intros H [_ (evs & T & F)]. rewrite (added_app _ _ _ T). eapply filter_none; eassumption.
Qed.

Lemma connection_event_not_cleanup e : connection_event e = true -> is_cleanup e = false.
Proof. destruct e; simpl; intros H; first [reflexivity|discriminate H]. Qed.

Lemma connection_event_not_query e : connection_event e = true -> not_query e = true.
Proof. destruct e; simpl; intros H; first [reflexivity|discriminate H]. Qed.

(** What has happened when extraction is about to begin: no query has been
    issued, and when the flag is set and connecting and cleanup completed,
    both target stores are empty and the cleanup calls made are the flush and
    the two delete-all calls. *)
Lemma before_extraction (st : state) :
  let before := (connectDatabases ;; clearNoSqlData) st in
  List.filter is_query (added st (snd before)) = []
  /\ (env st !! "CLEAR_NOSQL_DATA" = Some "true" -> fst before = Normal tt ->
      redis (snd before) = ∅
      /\ collection (snd before) "films" = []
      /\ collection (snd before) "actors" = []
      /\ List.filter is_cleanup (added st (snd before))
         = [RedisFlushDb; MongoDeleteMany "films"; MongoDeleteMany "actors"]).
Proof.
  intros before. subst before.
  pose proof (connectDatabases_events st) as Hev. split.
  - apply (only_filter_none not_query).
    + intros e. unfold not_query. destruct (is_query e); [discriminate|reflexivity].
    + apply respects_bind; [exact (only_trans not_query)| |intros _; exact clearNoSqlData_no_query].
      intros st0. eapply only_mono; [exact connection_event_not_query|].
      apply connectDatabases_events.
  - intros Hflag. rewrite bind_run.
    destruct (connectDatabases st) as [[[]|e|c] st1]; simpl in *; try discriminate.
    destruct Hev as [Henv (evs & T & F)].
    destruct (clearNoSqlData st1) as [o st'] eqn:E. simpl. intros ->.
    apply clearNoSqlData_done in E; [|rewrite Henv; exact Hflag].
    destruct E as (Hr & Hf & Ha & Ht). repeat (split; [assumption|]).
    rewrite T, <- app_assoc in Ht. rewrite (added_app _ _ _ Ht).
    rewrite List.filter_app.
    rewrite (filter_none connection_event is_cleanup evs connection_event_not_cleanup F).
    reflexivity.
Qed.

(** *** The journal *)

Lemma tracked_refl st : tracked st st.
Proof. exists []. rewrite !app_nil_r. auto. Qed.

Lemma tracked_trans a b c : tracked a b -> tracked b c -> tracked a c.
Proof.
  intros (J1 & H1 & T1) (J2 & H2 & T2). exists (J1 ++ J2)%list.
  rewrite H2, H1, T2, T1, map_app, <- !app_assoc. auto.
Qed.

Lemma tracked_event e st : tracked st (record_event e st).
Proof. exists [(e, (redis st, mongo st))]. auto. Qed.

Lemma tracked_silent (st st' : state) :
  journal st' = journal st -> trace st' = trace st -> tracked st st'.
Proof. intros Hj Ht. exists []. rewrite !app_nil_r. auto. Qed.

#[export] Hint Resolve tracked_refl tracked_trans : respects_db.

Ltac tracked_step :=
  intros;
  first [ apply tracked_event
        | apply tracked_silent; reflexivity ].

Lemma connect_and_clear_tracked : respects tracked (connectDatabases ;; clearNoSqlData).
Proof.
  unfold connectDatabases, clearNoSqlData, redis_flushDb, mongo_deleteMany.
  respects_steps; tracked_step.
Qed.

Lemma closeConnections_tracked : respects tracked closeConnections.
Proof. unfold closeConnections. respects_steps; tracked_step. Qed.

Lemma tracked_journaled (st st' : state) :
  tracked st st' -> map fst (journaled st st') = added st st'.
Proof.
  intros (J & Hj & Ht). unfold journaled. rewrite Hj, drop_app_length.
  symmetry. apply added_app. exact Ht.
Qed.

(** *** How a block begins *)

Lemma starts_bind {A B} (entries : list (event * stores)) (m : M A) (k : A -> M B)
    (st : state) :
  starts_with entries m st -> (forall a, respects tracked (k a)) ->
  starts_with entries (m ≫= k) st.
Proof.
  intros [rest H] Hk. unfold starts_with. rewrite bind_run.
  destruct (m st) as [[a|e|c] s'] eqn:E; cbn [snd] in *; [|exists rest; exact H..].
  destruct (Hk a s') as (J & Hj & _).
  exists (rest ++ J)%list. rewrite Hj, H, <- !app_assoc. reflexivity.
Qed.

Lemma starts_log {A} (entries : list (event * stores)) (msg : string) (m : M A)
    (st : state) :
  starts_with entries m (record_event (ConsoleLog msg) st) ->
  starts_with ((ConsoleLog msg, (redis st, mongo st)) :: entries)
              (console_log msg ≫= fun _ => m) st.
Proof.
  intros [rest H]. exists rest.
  change ((console_log msg ≫= fun _ => m) st) with (m (record_event (ConsoleLog msg) st)).
  rewrite H. cbn [journal record_event]. rewrite <- app_assoc. reflexivity.
Qed.

Lemma starts_call {A} (e : event) (k : unit -> M A) (st : state) :
  (forall a, respects tracked (k a)) ->
  starts_with [(e, (redis st, mongo st))] (call e id ≫= k) st.
Proof.
  intros Hk. unfold starts_with. rewrite bind_run. unfold call.
  destruct (fails st (trace st) e); cbn [snd].
  - exists []. reflexivity.
  - destruct (Hk tt (id (record_event e st))) as (J & Hj & _).
    exists J. rewrite Hj. unfold id. cbn [journal record_event].
    rewrite <- app_assoc. reflexivity.
Qed.

(** Extraction begins with the query for the countries, announced by two
    messages. *)
Lemma migrateAll_begins (st : state) :
  starts_with [(ConsoleLog "Migrating Countries to Redis...", (redis st, mongo st));
               (ConsoleLog "Fetching countries from PostgreSQL...", (redis st, mongo st));
               (PgQuery SelectCountry, (redis st, mongo st))]
              migrateAll st.
Proof.
  unfold migrateAll. apply starts_bind.
  - unfold migrateCountriesToRedis. apply starts_log. apply starts_bind.
    + unfold fetchCountries.
      apply (starts_log _ _ _ (record_event (ConsoleLog "Migrating Countries to Redis...") st)).
      unfold pg_query.
      apply (starts_call _ _
               (record_event (ConsoleLog "Fetching countries from PostgreSQL...")
                  (record_event (ConsoleLog "Migrating Countries to Redis...") st))).
      intros _. respects_steps; tracked_step.
    + intros rows. unfold redis_hSet. respects_steps; tracked_step.
  - intros _.
    unfold migrateCitiesToRedis, fetchLanguages, fetchCategories, migrateActorsToMongoDB,
      migrateFilmsToMongoDB, fetchCities, fetchActors, fetchFilms, pg_query, redis_hSet,
      mongo_insertMany.
    respects_steps; tracked_step.
Qed.

(** The body of [runMigration] is connecting and cleanup, then extraction
    and load. *)
Lemma migration_body_split (st : state) :
  (connectDatabases ;; clearNoSqlData ;; migrateAll) st
  = match (connectDatabases ;; clearNoSqlData) st with
    | (Normal _, st1) => migrateAll st1
    | (Thrown e, st1) => (Thrown e, st1)
    | (Exited c, st1) => (Exited c, st1)
    end.
Proof.
  rewrite <- (bind_assoc connectDatabases (fun _ => clearNoSqlData) (fun _ => migrateAll)).
  apply bind_run.
Qed.

(** What follows the body of [runMigration] only adds to the journal. *)
Lemma runMigration_after_body (st st1 : state) (o : outcome unit) :
  (connectDatabases ;; clearNoSqlData ;; migrateAll) st = (o, st1) ->
  tracked st1 (snd (runMigration st)).
Proof.
  intros H. unfold runMigration, try_catch_finally. rewrite H.
  destruct o as [u|[c]|c].
  - pose proof (closeConnections_tracked st1) as Hc.
    destruct (closeConnections st1) as [[u'|e|c] st2]; exact Hc.
  - apply tracked_event.
  - apply tracked_refl.
Qed.

(** *** The first query *)

Section FirstMatch.
Context {A B : Type} (f : A -> B) (P : B -> bool).

Lemma first_match_unique (l1 l2 l1' l2' : list A) (a a' : A) :
  (l1 ++ a :: l2)%list = (l1' ++ a' :: l2')%list ->
  List.filter P (map f l1) = [] -> List.filter P (map f l1') = [] ->
  P (f a) = true -> P (f a') = true ->
  l1 = l1' /\ a = a'.
Proof.
  revert l1'. induction l1 as [|x l1 IH]; intros [|x' l1'] E H1 H1' Ha Ha'.
  - injection E as -> _. auto.
  - injection E as -> _. cbn [map List.filter] in H1'. rewrite Ha in H1'. discriminate.
  - injection E as -> _. cbn [map List.filter] in H1. rewrite Ha' in H1. discriminate.
  - injection E as -> E. cbn [map List.filter] in H1, H1'.
    destruct (P (f x')); [discriminate|].
    destruct (IH l1' E H1 H1' Ha Ha') as [-> ->]. auto.
Qed.

Lemma no_match (l1 l2 : list A) (a : A) :
  List.filter P (map f (l1 ++ a :: l2)) = [] -> P (f a) = true -> False.
Proof.
  rewrite map_app, List.filter_app. cbn [map List.filter]. intros H Ha.
  rewrite Ha in H. destruct (List.filter P (map f l1)); discriminate.
Qed.
End FirstMatch.

(** With the flag set, when a run issues its first query the three cleanup
    calls have been made and both target stores are empty. *)
Lemma cleaned_before_first_query (st : state) (before after : list (event * stores))
    (q : statement) (s : stores) :
  env st !! "CLEAR_NOSQL_DATA" = Some "true" ->
  journaled st (snd (runMigration st)) = (before ++ (PgQuery q, s) :: after)%list ->
  List.filter is_query (map fst before) = [] ->
  List.filter is_cleanup (map fst before)
  = [RedisFlushDb; MongoDeleteMany "films"; MongoDeleteMany "actors"]
  /\ fst s = ∅
  /\ default [] (snd s !! "films") = []
  /\ default [] (snd s !! "actors") = [].
Proof.
  intros Hflag HJ Hfirst.
  destruct (before_extraction st) as [Hnoq Hclean]. cbv zeta in Hnoq, Hclean.
  pose proof (connect_and_clear_tracked st) as Htr.
  pose proof (migration_body_split st) as Hbody.
  destruct ((connectDatabases ;; clearNoSqlData) st) as [o st1] eqn:Eb. cbn [fst snd] in *.
  destruct Htr as (Jb & Hjb & Htb).
  rewrite (added_app _ _ _ Htb) in Hnoq, Hclean.
  destruct o as [[]|e|c].
  - destruct (migrateAll st1) as [o2 st2] eqn:Em.
    pose proof (runMigration_after_body st st2 o2 Hbody) as (Jt & Hjt & _).
    destruct (migrateAll_begins st1) as [rest Hm]. rewrite Em in Hm. cbn [snd] in Hm.
    unfold journaled in HJ. rewrite Hjt, Hm, Hjb in HJ.
    rewrite <- !app_assoc, drop_app_length in HJ.
    set (x := (redis st1, mongo st1)) in *.
    change (Jb ++ [(ConsoleLog "Migrating Countries to Redis...", x);
                   (ConsoleLog "Fetching countries from PostgreSQL...", x);
                   (PgQuery SelectCountry, x)] ++ rest ++ Jt)%list
      with (Jb ++ [(ConsoleLog "Migrating Countries to Redis...", x);
                   (ConsoleLog "Fetching countries from PostgreSQL...", x)]
               ++ (PgQuery SelectCountry, x) :: (rest ++ Jt))%list in HJ.
    rewrite app_assoc in HJ. symmetry in HJ.
    apply (first_match_unique fst is_query) in HJ as [-> Hs];
      [|exact Hfirst| |reflexivity..].
    + injection Hs as _ ->. destruct (Hclean Hflag eq_refl) as (Hr & Hf & Ha & Hc).
      rewrite map_app, List.filter_app, Hc. auto.
    + rewrite map_app, List.filter_app, Hnoq. reflexivity.
  - exfalso. destruct e as [failed].
    unfold journaled in HJ. unfold runMigration, try_catch_finally in HJ.
    rewrite Hbody in HJ. cbn [console_error] in HJ.
    change (snd _) with (record_event (ConsoleError "Migration failed:" failed) st1) in HJ.
    cbn [journal record_event] in HJ. rewrite Hjb, <- app_assoc, drop_app_length in HJ.
    apply (no_match fst is_query before after (PgQuery q, s)); [|reflexivity].
    rewrite <- HJ, map_app, List.filter_app, Hnoq. reflexivity.
  - exfalso. unfold journaled in HJ. unfold runMigration, try_catch_finally in HJ.
    rewrite Hbody in HJ. cbn [snd] in HJ. rewrite Hjb, drop_app_length in HJ.
    apply (no_match fst is_query before after (PgQuery q, s)); [|reflexivity].
    rewrite <- HJ. exact Hnoq.
Qed.

(** *** What the stores keep *)

Lemma kept_refl st : kept st st.
Proof.
  split; [reflexivity|]. exists []. rewrite app_nil_r. split; [reflexivity|].
  split; [reflexivity|]. intros coll. exists []. rewrite app_nil_r. reflexivity.
Qed.

Lemma kept_trans a b c : kept a b -> kept b c -> kept a c.
Proof.
  intros [E1 (evs1 & T1 & R1 & C1)] [E2 (evs2 & T2 & R2 & C2)].
  split; [congruence|]. exists (evs1 ++ evs2)%list.
  split; [rewrite T2, T1, <- app_assoc; reflexivity|]. split.
  - intros k Hk. rewrite R2, R1; [reflexivity|..];
      intros fields Hin; apply (Hk fields), in_or_app; auto.
  - intros coll. destruct (C1 coll) as [n1 H1]. destruct (C2 coll) as [n2 H2].
    exists (n1 ++ n2)%list. rewrite H2, H1, <- app_assoc. reflexivity.
Qed.

Lemma kept_event e st : kept st (record_event e st).
Proof.
  split; [reflexivity|]. exists [e]. split; [reflexivity|]. split; [reflexivity|].
  intros coll. exists []. rewrite app_nil_r. reflexivity.
Qed.

Lemma kept_silent (st st' : state) :
  env st' = env st -> trace st' = trace st -> redis st' = redis st -> mongo st' = mongo st ->
  kept st st'.
Proof.
  intros He Ht Hr Hm. split; [exact He|]. exists []. rewrite app_nil_r.
  split; [exact Ht|]. split; [rewrite Hr; reflexivity|].
  intros coll. exists []. unfold collection. rewrite Hm, app_nil_r. reflexivity.
Qed.

(** A bulk insert adds its documents after those the collection holds. *)
Lemma kept_insert (coll : string) (docs : list Js.value) (st : state) :
  kept st (set_mongo (fun m => <[coll := (default [] (m !! coll) ++ docs)%list]> m) st).
Proof.
  split; [reflexivity|]. exists []. rewrite app_nil_r. split; [reflexivity|].
  split; [reflexivity|]. intros other. unfold collection. cbn [mongo set_mongo].
  destruct (decide (other = coll)) as [->|Hne].
  - exists docs. rewrite lookup_insert_eq. reflexivity.
  - exists []. rewrite lookup_insert_ne by congruence. rewrite app_nil_r. reflexivity.
Qed.

(** A hash write changes the hash at its key only. *)
Lemma redis_hSet_kept (key : string) (fields : list (string * string)) :
  respects kept (redis_hSet key fields).
Proof.
  intros st. unfold redis_hSet, call.
  destruct (fails st (trace st) (RedisHSet key fields)); cbn [snd]; [apply kept_event|].
  split; [reflexivity|]. exists [RedisHSet key fields]. split; [reflexivity|]. split.
  - intros k Hk. cbn [redis set_redis record_event].
    apply lookup_insert_ne. intros <-. apply (Hk fields). left. reflexivity.
  - intros coll. exists []. rewrite app_nil_r. reflexivity.
Qed.

#[export] Hint Resolve kept_refl kept_trans : respects_db.

Ltac kept_step :=
  intros;
  first [ apply kept_event
        | apply kept_insert
        | apply kept_silent; reflexivity ].

Lemma connectDatabases_kept : respects kept connectDatabases.
Proof. unfold connectDatabases. respects_steps; kept_step. Qed.

Lemma migrateAll_kept : respects kept migrateAll.
Proof.
  unfold migrateAll, migrateCountriesToRedis, migrateCitiesToRedis, fetchLanguages,
    fetchCategories, migrateActorsToMongoDB, migrateFilmsToMongoDB, fetchCountries,
    fetchCities, fetchActors, fetchFilms, pg_query, mongo_insertMany.
  respects_steps_but ltac:(apply redis_hSet_kept); kept_step.
Qed.

Lemma closeConnections_kept : respects kept closeConnections.
Proof. unfold closeConnections. respects_steps; kept_step. Qed.

Lemma kept_unless_cleared_trans a b c :
  kept_unless_cleared a b -> kept_unless_cleared b c -> kept_unless_cleared a c.
Proof.
  intros Hab Hbc Hflag. specialize (Hab Hflag).
  eapply kept_trans; [exact Hab|]. apply Hbc. destruct Hab as [-> _]. exact Hflag.
Qed.

Lemma kept_always {A} (m : M A) : respects kept m -> respects kept_unless_cleared m.
Proof. apply respects_mono. intros st st' H _. exact H. Qed.

(** Unless the flag is set, a run keeps what the stores held, however it
    ends. *)
Lemma runMigration_kept : respects kept_unless_cleared runMigration.
Proof.
  unfold runMigration.
  apply respects_try_catch_finally; [exact kept_unless_cleared_trans| | |].
  - apply respects_bind; [exact kept_unless_cleared_trans| |intros _].
    + apply kept_always, connectDatabases_kept.
    + apply respects_bind; [exact kept_unless_cleared_trans| |intros _].
      * intros st Hflag. rewrite (clearNoSqlData_skipped st Hflag). apply kept_refl.
      * apply kept_always, migrateAll_kept.
  - intros e. apply kept_always. respects_steps; kept_step.
  - apply kept_always, closeConnections_kept.
Qed.

Lemma runMigration_tracked : respects tracked runMigration.
Proof.
  unfold runMigration, connectDatabases, clearNoSqlData, migrateAll, migrateCountriesToRedis,
    migrateCitiesToRedis, fetchLanguages, fetchCategories, migrateActorsToMongoDB,
    migrateFilmsToMongoDB, fetchCountries, fetchCities, fetchActors, fetchFilms,
    pg_query, redis_hSet, redis_flushDb, mongo_deleteMany, mongo_insertMany, closeConnections.
  apply respects_try_catch_finally; [exact tracked_trans|..];
    [|intros ?|]; respects_steps; tracked_step.
Qed.

(** C9: the cleanup runs exactly when the environment value is the string
    [true].  The journal of a run lists its events with the contents of the
    target stores at the time of each.  With the flag set, at the first query
    of the run, which is where extraction begins, the cleanup calls made are
    the flush and the two delete-all calls, the key-value store holds no key
    and the films and actors collections hold no document.  With any other
    value, or none, the run issues no cleanup call, and however it ends the
    hash at a key is as it was before the run unless the run issued a hash
    write to that key, and every collection holds the documents it held, those
    of the run coming after them. *)
Theorem cleanup_gate (st : state) :
  let flag := env st !! "CLEAR_NOSQL_DATA" in
  let final := snd (runMigration st) in
  map fst (journaled st final) = added st final
  /\ (flag = Some "true" ->
      forall (before after : list (event * stores)) (q : statement) (s : stores),
        journaled st final = (before ++ (PgQuery q, s) :: after)%list ->
        List.filter is_query (map fst before) = [] ->
        List.filter is_cleanup (map fst before)
        = [RedisFlushDb; MongoDeleteMany "films"; MongoDeleteMany "actors"]
        /\ fst s = ∅
        /\ default [] (snd s !! "films") = []
        /\ default [] (snd s !! "actors") = [])
  /\ (flag <> Some "true" ->
      List.filter is_cleanup (added st final) = []
      /\ (forall k : string,
            (forall fields, ~ In (RedisHSet k fields) (added st final)) ->
            redis final !! k = redis st !! k)
      /\ (forall coll : string, exists new : list Js.value,
            collection final coll = (collection st coll ++ new)%list)).
Proof.
  intros flag final. subst flag final. split; [|split].
  - apply tracked_journaled, runMigration_tracked.
  - intros Hflag before after q s. apply cleaned_before_first_query. exact Hflag.
  - intros Hflag. split.
    + apply (only_filter_none not_cleanup).
      * intros e. unfold not_cleanup. destruct (is_cleanup e); [discriminate|reflexivity].
      * apply runMigration_unless_cleared. exact Hflag.
    + destruct (runMigration_kept st Hflag) as [_ (evs & T & R & C)].
      rewrite (added_app _ _ _ T). split; [exact R|exact C].
Qed.

Lemma cleanup_gate_witness :
  (env cleared_run !! "CLEAR_NOSQL_DATA" = Some "true"
   /\ journaled cleared_run (snd (runMigration cleared_run))
      = (take 16 (journaled cleared_run (snd (runMigration cleared_run)))
           ++ (PgQuery SelectCountry, (∅, {[ "films" := []; "actors" := [] ]}))
           :: drop 17 (journaled cleared_run (snd (runMigration cleared_run))))%list
   /\ List.filter is_query
        (map fst (take 16 (journaled cleared_run (snd (runMigration cleared_run))))) = []
   /\ env kept_run !! "CLEAR_NOSQL_DATA" <> Some "true")
  /\ List.filter is_cleanup
       (map fst (take 16 (journaled cleared_run (snd (runMigration cleared_run)))))
     = [RedisFlushDb; MongoDeleteMany "films"; MongoDeleteMany "actors"]
  /\ List.filter is_cleanup (added kept_run (snd (runMigration kept_run))) = []
  /\ exists new : list Js.value,
       collection (snd (runMigration kept_run)) "films"
       = (collection kept_run "films" ++ new)%list.
Proof.
  assert (H1 : env cleared_run !! "CLEAR_NOSQL_DATA" = Some "true")
    by (vm_compute; reflexivity).
  assert (H2 : journaled cleared_run (snd (runMigration cleared_run))
               = (take 16 (journaled cleared_run (snd (runMigration cleared_run)))
                    ++ (PgQuery SelectCountry, (∅, {[ "films" := []; "actors" := [] ]}))
                    :: drop 17 (journaled cleared_run (snd (runMigration cleared_run))))%list).
  { symmetry. apply take_drop_middle. vm_compute. reflexivity. }
  assert (H3 : List.filter is_query
                 (map fst (take 16 (journaled cleared_run (snd (runMigration cleared_run)))))
               = [])
    by (vm_compute; reflexivity).
  assert (H4 : env kept_run !! "CLEAR_NOSQL_DATA" <> Some "true")
    by (vm_compute; discriminate).
  split; [auto|].
  destruct (proj1 (proj2 (cleanup_gate cleared_run)) H1 _ _ _ _ H2 H3) as [Hc _].
  destruct (proj2 (proj2 (cleanup_gate kept_run)) H4) as (Hn & _ & Hk).
  split; [exact Hc|]. split; [exact Hn|exact (Hk "films")].
Defined.

(** ** Actors *)

(** As [run_in], keeping what was learnt about each call. *)
Ltac run_with H :=
  cbv beta iota delta [mbind M_bind mret M_ret gets modify call console_log
                       when_assigned] in H;
  repeat match type of H with
    | context [fails ?st ?h ?e] =>
        destruct (fails st h e) eqn:?; cbv beta iota in H;
        try discriminate H; try congruence
    end.

Lemma actorDoc_id (rows : list Actor.row) :
  map (Js.field "_id") (map actorDoc rows)
  = map (fun a => Js.Num (Js.Integer (Actor.actor_id a))) rows.
Proof. rewrite map_map. reflexivity. Qed.

(** C8: when the actor fetch returns no row the actor load issues no
    bulk insert and completes normally; when it returns rows there is exactly
    one bulk insert, into the actors collection, of one document per row
    whose [_id] is the actor identifier of the row. *)
Theorem actors_single_bulk_insert (st st1 : state) (rows : list Actor.row) :
  fetchActors (record_event (ConsoleLog "Migrating Actors to MongoDB...") st)
  = (Normal rows, st1) ->
  let result := migrateActorsToMongoDB st in
  let inserts := List.filter is_insertMany (added st (snd result)) in
  rows = actors (source st)
  /\ match rows with
     | [] => inserts = [] /\ fst result = Normal tt
     | _ :: _ =>
         inserts = [MongoInsertMany "actors" (map actorDoc rows)]
         /\ map (Js.field "_id") (map actorDoc rows)
            = map (fun a => Js.Num (Js.Integer (Actor.actor_id a))) rows
     end.
Proof.
  intros H result inserts. subst result inserts.
  destruct (migrateActorsToMongoDB st) as [o st'] eqn:E.
  unfold migrateActorsToMongoDB, fetchActors, pg_query, mongo_insertMany in *.
  run_with H. injection H as <- <-. split; [reflexivity|].
  run_with E; cbn [source record_event id] in E.
  all: destruct (actors (source st)) as [|a l] eqn:Hrows.
  all: try change (0 <? Z.of_nat (List.length (map actorDoc (a :: l)))) with true in E.
  all: cbv beta iota in E; simpl in E; run_with E.
  all: injection E as <- <-.
  all: repeat split; try apply actorDoc_id.
  all: cbn [fst snd].
  all: (erewrite added_app;
        [|cbn [trace record_event set_mongo]; rewrite <- ?app_assoc; reflexivity]);
       reflexivity.
Qed.

Lemma actors_single_bulk_insert_witness :
  fetchActors (record_event (ConsoleLog "Migrating Actors to MongoDB...") plain_run)
  = (Normal sample_actors,
     snd (fetchActors (record_event (ConsoleLog "Migrating Actors to MongoDB...") plain_run)))
  /\ List.filter is_insertMany (added plain_run (snd (migrateActorsToMongoDB plain_run)))
     = [MongoInsertMany "actors" (map actorDoc sample_actors)].
Proof.
  assert (H : fetchActors (record_event (ConsoleLog "Migrating Actors to MongoDB...")
                             plain_run)
              = (Normal sample_actors,
                 snd (fetchActors (record_event
                                     (ConsoleLog "Migrating Actors to MongoDB...")
                                     plain_run))))
    by reflexivity.
  split; [exact H|].
  exact (proj1 (proj2 (actors_single_bulk_insert plain_run _ sample_actors H))).
Defined.

(** ** Teardown *)

(** C2 as stated fails: every call of the run succeeds except the close of
    the relational connection; the key-value and document handles are
    assigned, and neither is closed. *)
Lemma failed_close_skips_the_others :
  fst (runMigration pg_end_fails) = Thrown (DriverError PgEnd)
  /\ redisClient (snd (runMigration pg_end_fails)) <> None
  /\ mongoClient (snd (runMigration pg_end_fails)) <> None
  /\ List.filter is_close (trace (snd (runMigration pg_end_fails))) = [PgEnd].
Proof. vm_compute. repeat split; discriminate. Qed.

(** C2, amended: in the teardown phase a close is attempted only for a
    handle that is assigned, in the order relational, key-value, document.
    When no close raises, every assigned handle is closed; when a close
    raises, it is the last one attempted and the closes of the handles after
    it are not attempted.  The teardown never exits the process. *)
Theorem closeConnections_stops_at_first_failure (st : state) :
  let result := closeConnections st in
  let attempted := List.filter is_close (added st (snd result)) in
  match fst result with
  | Normal _ => attempted = handles_to_close st
  | Thrown (DriverError e) =>
      exists earlier later,
        attempted = (earlier ++ [e])%list
        /\ handles_to_close st = (attempted ++ later)%list
  | Exited _ => False
  end.
Proof.
  intros result attempted. subst result attempted.
  destruct (closeConnections st) as [o st'] eqn:E.
  unfold closeConnections, handles_to_close in *.
  cbv beta iota delta [mbind M_bind gets] in E.
  destruct (pgClient st) as [pg|] eqn:Hpg;
    destruct (redisClient st) as [rd|] eqn:Hrd;
    destruct (mongoClient st) as [mg|] eqn:Hmg.
  all: run_with E;
    cbn [pgClient redisClient mongoClient record_event id] in E;
    rewrite ?Hrd, ?Hmg in E; cbv beta iota in E.
  all: repeat (run_with E;
               cbn [pgClient redisClient mongoClient record_event id] in E;
               rewrite ?Hrd, ?Hmg in E; cbv beta iota in E).
  all: injection E as <- <-; cbn [fst snd owed].
  all: (erewrite added_app;
        [|cbn [trace record_event]; rewrite <- ?app_assoc;
          first [reflexivity|symmetry; apply app_nil_r]]).
  all: cbn [List.filter is_close app].
  all: try reflexivity.
  all: try (exists [], [RedisQuit; MongoClose]; split; reflexivity).
  all: try (exists [], [RedisQuit]; split; reflexivity).
  all: try (exists [], [MongoClose]; split; reflexivity).
  all: try (exists [], []; split; reflexivity).
  all: try (exists [PgEnd], [MongoClose]; split; reflexivity).
  all: try (exists [PgEnd], []; split; reflexivity).
  all: try (exists [RedisQuit], []; split; reflexivity).
  all: try (exists [PgEnd; RedisQuit], []; split; reflexivity).
Qed.

Lemma migration_body_no_close :
  respects (only not_close) (connectDatabases ;; clearNoSqlData ;; migrateAll).
Proof.
  unfold connectDatabases, clearNoSqlData, migrateAll, migrateCountriesToRedis,
    migrateCitiesToRedis, fetchLanguages, fetchCategories, migrateActorsToMongoDB,
    migrateFilmsToMongoDB, fetchCountries, fetchCities, fetchActors, fetchFilms,
    pg_query, redis_hSet, redis_flushDb, mongo_deleteMany, mongo_insertMany.
  respects_steps; only_step.
Qed.

(** Whenever connecting, cleanup, extraction or load raises, the handler
    ends the process with status one and the [finally] block does not run:
    no close is attempted. *)
Lemma failed_run_closes_nothing (st st' : state) (e : error) :
  (connectDatabases ;; clearNoSqlData ;; migrateAll) st = (Thrown e, st') ->
  fst (runMigration st) = Exited 1
  /\ List.filter is_close (added st (snd (runMigration st))) = [].
Proof.
  intros H. pose proof (migration_body_no_close st) as Hb.
  unfold runMigration, try_catch_finally. rewrite H in *. destruct e as [c].
  simpl. split; [reflexivity|].
  apply (only_filter_none not_close).
  - intros ev. unfold not_close. destruct (is_close ev); [discriminate|reflexivity].
  - eapply only_trans; [exact Hb|]. apply only_event. reflexivity.
Qed.

(** A run that completes its migration goes through the teardown. *)
Lemma successful_run_tears_down (st st' : state) :
  (connectDatabases ;; clearNoSqlData ;; migrateAll) st = (Normal tt, st') ->
  snd (runMigration st) = snd (closeConnections st').
Proof.
  intros H. unfold runMigration, try_catch_finally. rewrite H.
  destruct (closeConnections st') as [[u|e|c] st'']; reflexivity.
Qed.

(** C1 at a failing run: the bulk insert of the films raises after the
    actors were inserted.  All three connections are open, the actors stay in
    their collection, the process exits with status one, and no close is
    attempted. *)
Theorem teardown_skipped_on_failure :
  fst (runMigration films_insert_fails) = Exited 1
  /\ (pgClient (snd (runMigration films_insert_fails)) <> None
      /\ redisClient (snd (runMigration films_insert_fails)) <> None
      /\ mongoClient (snd (runMigration films_insert_fails)) <> None)
  /\ collection (snd (runMigration films_insert_fails)) "actors" = map actorDoc sample_actors
  /\ List.filter is_close (trace (snd (runMigration films_insert_fails))) = [].
Proof. vm_compute. repeat split; discriminate. Qed.

(** ** Examples *)

Example split_three : Js.split Js.comma "1,2,99" = ["1"; "2"; "99"].
Proof. reflexivity. Qed.

Example split_empty_pieces : Js.split Js.comma ",a," = [""; "a"; ""].
Proof. reflexivity. Qed.

Example parseInt_plain : Js.parseInt "42" 0 = Js.Integer 42.
Proof. vm_compute. reflexivity. Qed.

Example parseInt_empty : Js.parseInt "" 0 = Js.NaN.
Proof. reflexivity. Qed.

(** Beyond [2^53] not every integer is a Number: [parseInt] gives the
    nearest one, the even significand on a tie. *)
Example parseInt_rounds : Js.parseInt "9007199254740993" 0 = Js.Integer 9007199254740992.
Proof. vm_compute. reflexivity. Qed.

Example parseInt_rounds_up : Js.parseInt "9007199254740995" 0 = Js.Integer 9007199254740996.
Proof. vm_compute. reflexivity. Qed.

Example parseInt_overflows :
  Js.parseInt (String "1" (Js.zeros 309)) 0 = Js.Float (S754_infinity false).
Proof. vm_compute. reflexivity. Qed.

(** An identifier beyond [2^53] in a category aggregate resolves to the
    category whose identifier is its Number value. *)
Example category_beyond_2_53 :
  filmCategories
    (categoriesMapOf [ {| Category.category_id := 9007199254740992;
                          Category.name := "Far"; Category.last_update := 0 |} ])
    (with_category_ids (Some "9007199254740993") sample_film)
  = [reduced 9007199254740992 "Far"].
Proof. vm_compute. reflexivity. Qed.

(** The rounding agrees with the division of the Standard Library's
    [SpecFloat] on these fractions. *)
Example nearest_binary64_as_SFdiv :
  forallb (fun '(n, d) =>
             SFeqb (Js.nearest_binary64 false (Zpos n) (Zpos d))
                   (SFdiv 53 1024 (S754_finite false n 0) (S754_finite false d 0)))
          [(499, 100); (2099, 100); (1, 3); (2, 3); (1, 10); (9007199254740993, 1);
           (1, 9007199254740993); (123456789012345678901234567890, 1000000007)]%positive
  = true.
Proof. vm_compute. reflexivity. Qed.

Example parseInt_port : Js.parseInt "5432" 10 = Js.Integer 5432.
Proof. vm_compute. reflexivity. Qed.

Example parseFloat_half :
  Js.parseFloat "0.5" = Js.Float (S754_finite false 4503599627370496 (-53)).
Proof. vm_compute. reflexivity. Qed.

Example parseFloat_text : Js.parseFloat "free" = Js.NaN.
Proof. vm_compute. reflexivity. Qed.

Example toISOString_sakila : Js.toISOString 1139996640000 = "2006-02-15T09:44:00.000Z".
Proof. vm_compute. reflexivity. Qed.

Example country_record :
  redis (snd (runMigration plain_run)) !! "country:1"
  = Some (list_to_map [("country_id", "1"); ("country_name", "Afghanistan");
                       ("last_update", "2006-02-15T09:44:00.000Z")]).
Proof. vm_compute. reflexivity. Qed.

Example successful_run_closes_all :
  fst (runMigration plain_run) = Normal tt
  /\ List.filter is_close (trace (snd (runMigration plain_run)))
     = [PgEnd; RedisQuit; MongoClose].
Proof. vm_compute. split; reflexivity. Qed.

Example pre_existing_records_kept :
  redis (snd (runMigration kept_run)) !! "session:1" = Some {[ "user" := "alice" ]}
  /\ collection (snd (runMigration cleared_run)) "films"
     = [filmDoc (languagesMapOf sample_languages) (categoriesMapOf sample_categories)
                sample_film]
  /\ redis (snd (runMigration cleared_run)) !! "session:1" = None.
Proof. vm_compute. repeat split; reflexivity. Qed.
